(** * PointCloudOctomapUpdater: occupancy update and frontier maintenance

    A shallow embedding of
    [moveit_ros/perception/pointcloud_octomap_updater/src/pointcloud_octomap_updater.cpp]:
    the per-frame callback [cloudMsgCallback] (rate limiting, bucketing of the
    cloud into key sets, ray tracing, reconciliation, commit to the two
    octrees), [trackChanges], [findFrontier] and [mergeFrontier], and
    besides them [publishFrontierNew], [initialize], [start] and [stop].

    Conventions.
    - [octomap::KeySet] (an unordered set of keys) is a [gset OcTreeKey]; a
      loop over a key set is a [set_fold].  [octomap::KeyBoolMap] (the
      changed keys of a tree) is a [gmap OcTreeKey bool]; the loop over it
      is a [map_fold].
    - Log-odds values are integers in a fixed-point unit and coordinates and
      times are rationals: the rounding of the C++ [float]/[double]
      arithmetic is not modelled.
    - Exceptions caught by the two [catch (...)] blocks (allocation failure
      inside the octree) are not modelled, nor are logging, the read and
      write locks, and the publication of the filtered cloud, of the
      markers and of the map message, none of which writes to the members
      modelled here.
    - The two reads of the clock in the rate limiter are one instant. *)

From Stdlib Require Import ZArith QArith Qround Lia.
From stdpp Require Import base decidable countable gmap sets list strings.

Set Warnings "-clear-no-such-hyp".

Local Close Scope Q_scope.
Local Open Scope Z_scope.

(** ** Keys and points *)

(** [octomap::OcTreeKey]: three components [k[0]], [k[1]], [k[2]] of the
    16-bit unsigned [key_type]. *)
Record OcTreeKey : Type := OcTreeKey_mk { k0 : Z; k1 : Z; k2 : Z }.

#[global] Instance OcTreeKey_eq_dec : EqDecision OcTreeKey.
Proof. solve_decision. Defined.

#[global] Instance OcTreeKey_countable : Countable OcTreeKey.
Proof.
  apply (inj_countable' (λ k, (k0 k, k1 k, k2 k))
                        (λ t, OcTreeKey_mk t.1.1 t.1.2 t.2)).
  by intros [].
Defined.

Abbreviation KeySet := (gset OcTreeKey).

(** [octomap::point3d]. *)
Record point3d : Type := point3d_mk { px : Q; py : Q; pz : Q }.

Definition Qlt_bool (a b : Q) : bool := negb (Qle_bool b a).

(** Conversion of an [int] to octomap's [key_type], a 16-bit unsigned
    integer: reduction modulo 2^16. *)
Definition to_key_type (n : Z) : Z := n mod 65536.

(** The constructor call [OcTreeKey(a, b, c)] on [int] arguments. *)
Definition OcTreeKey_of_ints (a b c : Z) : OcTreeKey :=
  OcTreeKey_mk (to_key_type a) (to_key_type b) (to_key_type c).

(** ** The octree *)

Record OcTreeParams : Type := {
  resolution : Q;
  tree_max_val : Z;
  prob_hit_log : Z;
  prob_miss_log : Z;
  clamping_thres_min : Z;
  clamping_thres_max : Z;
  occ_prob_thres_log : Z
}.

Record OcTree : Type := OcTree_mk {
  params : OcTreeParams;
  nodes : gmap OcTreeKey Z;
  use_change_detection : bool;
  changed_keys : gmap OcTreeKey bool
}.

Module Octomap.

(** Modelled from the spec: the octomap library ([octomap::OcTree], its key
    codec and its node updates) is not part of the source file.  The codec
    follows section 4.1: [coordToKey] floor-divides a coordinate by the
    resolution and adds the fixed origin offset [tree_max_val]. *)
Definition coordToKey1 (P : OcTreeParams) (c : Q) : Z :=
  Qfloor (c / resolution P)%Q + tree_max_val P.

(** Modelled from the spec: the unchecked [coordToKey(x, y, z)] of octomap,
    absent from the source file; the result is stored in [key_type]s. *)
Definition coordToKey (P : OcTreeParams) (p : point3d) : OcTreeKey :=
  OcTreeKey_of_ints (coordToKey1 P (px p)) (coordToKey1 P (py p))
                    (coordToKey1 P (pz p)).

(** Modelled from the spec: the key range of a tree, absent from the source
    file: the components [0 .. 2 * tree_max_val - 1]. *)
Definition in_key_range (P : OcTreeParams) (n : Z) : bool :=
  (0 <=? n) && (n <? 2 * tree_max_val P).

(** Modelled from the spec: [coordToKeyChecked] of octomap (absent from the
    source file) fails for a coordinate outside the key range (section 4.3,
    "out-of-range key"). *)
Definition coordToKeyChecked (P : OcTreeParams) (p : point3d)
  : option OcTreeKey :=
  let a := coordToKey1 P (px p) in
  let b := coordToKey1 P (py p) in
  let c := coordToKey1 P (pz p) in
  if in_key_range P a && in_key_range P b && in_key_range P c
  then Some (OcTreeKey_mk a b c) else None.

(** Modelled from the spec: [keyToCoord] of octomap (absent from the source
    file), section 4.1: the centre of the voxel of a key. *)
Definition keyToCoord1 (P : OcTreeParams) (n : Z) : Q :=
  ((inject_Z (n - tree_max_val P) + (1 # 2)) * resolution P)%Q.

(** Modelled from the spec: [keyToCoord(key)] on a whole key, component by
    component. *)
Definition keyToCoord (P : OcTreeParams) (k : OcTreeKey) : point3d :=
  point3d_mk (keyToCoord1 P (k0 k)) (keyToCoord1 P (k1 k))
             (keyToCoord1 P (k2 k)).

(** Modelled from the spec: [search(key)] of octomap (absent from the source
    file), section 4.2: a voxel absent from the mapping is UNKNOWN, which
    the C++ reports as a null node. *)
Definition search (t : OcTree) (k : OcTreeKey) : option Z := nodes t !! k.

(** Modelled from the spec: [search(point3d)] of octomap (absent from the
    source file), the lookup of the key of a coordinate; null when the
    coordinate is outside the tree. *)
Definition search_coord (t : OcTree) (p : point3d) : option Z :=
  match coordToKeyChecked (params t) p with
  | Some k => search t k
  | None => None
  end.

(** Modelled from the spec: [isNodeOccupied] of octomap (absent from the
    source file), section 3: a present voxel is OCCUPIED if its log-odds
    exceeds the decision threshold, else FREE. *)
Definition isNodeOccupied (t : OcTree) (v : Z) : bool :=
  occ_prob_thres_log (params t) <? v.

(** Modelled from the spec: the clamping of octomap (absent from the source
    file), section 3: a stored value is kept within [minLog, maxLog] and an
    update saturates. *)
Definition clamp (P : OcTreeParams) (v : Z) : Z :=
  if v <? clamping_thres_min P then clamping_thres_min P
  else if clamping_thres_max P <? v then clamping_thres_max P
  else v.

(** The change detection of octomap (absent from the source file), whose
    [KeyBoolMap] of changed keys [trackChanges] iterates.  At the end of an
    update of the cell of [k] from the content [prior] to the value [v]: a
    key whose node the update created is inserted with [true] (an entry
    already there is kept); a key whose node existed and whose occupancy
    differs before and after is inserted with [false] if it has no entry,
    and its entry is erased if that entry is [false]; nothing else is
    recorded.  Section 4.2 of the spec words this as recording a key
    whenever its clamped value differs from the prior value, which the
    map of changed keys does not do. *)
Definition record_change (t : OcTree) (k : OcTreeKey) (prior : option Z)
    (v : Z) : gmap OcTreeKey bool :=
  match prior with
  | None =>
      match changed_keys t !! k with
      | None => <[k := true]> (changed_keys t)
      | Some _ => changed_keys t
      end
  | Some v0 =>
      if negb (eqb (isNodeOccupied t v0) (isNodeOccupied t v))
      then match changed_keys t !! k with
           | None => <[k := false]> (changed_keys t)
           | Some false => delete k (changed_keys t)
           | Some true => changed_keys t
           end
      else changed_keys t
  end.

(** Modelled from the spec: [updateNode(key, float log_odds_update)] of
    octomap (absent from the source file), the update of section 4.2 for a
    given increment: the increment is added to the stored value (0, even
    odds, for a voxel not yet in the mapping) and the sum is clamped; when
    the change detection is armed the update is recorded by
    [record_change].  The source forces a model cell to the minimum by
    calling it with the increment [min - max]. *)
Definition updateNodeLogOdds (t : OcTree) (k : OcTreeKey) (upd : Z) : OcTree :=
  let prior := nodes t !! k in
  let v := clamp (params t) (default 0 prior + upd) in
  {| params := params t;
     nodes := <[k := v]> (nodes t);
     use_change_detection := use_change_detection t;
     changed_keys :=
       if use_change_detection t then record_change t k prior v
       else changed_keys t |}.

(** Modelled from the spec: [updateNode(key, bool occupied)] of octomap
    (absent from the source file), section 4.2: a fixed positive or negative
    log-odds increment. *)
Definition updateNode (t : OcTree) (k : OcTreeKey) (occupied : bool) : OcTree :=
  updateNodeLogOdds t k
    (if occupied then prob_hit_log (params t) else prob_miss_log (params t)).

(** Modelled from the spec: [enableChangeDetection] of octomap (absent from
    the source file), section 4.5: arms recording. *)
Definition enableChangeDetection (t : OcTree) (b : bool) : OcTree :=
  {| params := params t; nodes := nodes t;
     use_change_detection := b; changed_keys := changed_keys t |}.

(** Modelled from the spec: [resetChangeDetection] of octomap (absent from
    the source file), section 4.5: clears the recorded keys. *)
Definition resetChangeDetection (t : OcTree) : OcTree :=
  {| params := params t; nodes := nodes t;
     use_change_detection := use_change_detection t; changed_keys := ∅ |}.

End Octomap.

(** ** The updater *)

Import Octomap.

(** [point_containment_filter::ShapeMask] labels stored in [mask_]. *)
Inductive ShapeMaskLabel : Type := INSIDE | OUTSIDE | CLIP.

(** One sample visited by the strided loops over the cloud: whether one of
    its coordinates is NaN, its image [map_h_sensor * point] in the map
    frame, and its entry [mask_[row_c + col]]. *)
Record CloudPoint : Type := {
  pt_nan : bool;
  pt_map : point3d;
  pt_mask : ShapeMaskLabel
}.

(** What one call of the callback reads from its environment: the clock,
    the header of the message, the origin of the transform returned by the
    tf buffer ([None] when the lookup throws or there is no buffer), the
    result of [updateTransformCache], and the samples visited. *)
Record CloudMsg : Type := {
  now : Q;
  frame_id : string;
  lookupTransform : option point3d;
  transform_cache_ok : bool;
  samples : list CloudPoint
}.

(** The members of [PointCloudOctomapUpdater] read or written by the
    callback ([map_frame_] is the map frame held by [monitor_]). *)
Record Updater : Type := Updater_mk {
  max_update_rate_ : Q;
  last_update_time_ : Q;
  map_frame_ : string;
  tree_ : OcTree;
  frontier_tree_ : OcTree;
  changed_cell_ : KeySet;
  frontier_cell_ : KeySet;
  x_min_ : Q; x_max_ : Q;
  y_min_ : Q; y_max_ : Q;
  z_min_ : Q; z_max_ : Q
}.

Definition set_last_update_time (u : Updater) (t : Q) : Updater :=
  Updater_mk (max_update_rate_ u) t (map_frame_ u) (tree_ u)
    (frontier_tree_ u) (changed_cell_ u) (frontier_cell_ u)
    (x_min_ u) (x_max_ u) (y_min_ u) (y_max_ u) (z_min_ u) (z_max_ u).

Definition set_map_frame (u : Updater) (f : string) : Updater :=
  Updater_mk (max_update_rate_ u) (last_update_time_ u) f (tree_ u)
    (frontier_tree_ u) (changed_cell_ u) (frontier_cell_ u)
    (x_min_ u) (x_max_ u) (y_min_ u) (y_max_ u) (z_min_ u) (z_max_ u).

Definition set_trees (u : Updater) (t ft : OcTree) : Updater :=
  Updater_mk (max_update_rate_ u) (last_update_time_ u) (map_frame_ u) t
    ft (changed_cell_ u) (frontier_cell_ u)
    (x_min_ u) (x_max_ u) (y_min_ u) (y_max_ u) (z_min_ u) (z_max_ u).

Definition set_changed (u : Updater) (ft : OcTree) (c : KeySet) : Updater :=
  Updater_mk (max_update_rate_ u) (last_update_time_ u) (map_frame_ u)
    (tree_ u) ft c (frontier_cell_ u)
    (x_min_ u) (x_max_ u) (y_min_ u) (y_max_ u) (z_min_ u) (z_max_ u).

Definition set_frontier_cell (u : Updater) (f : KeySet) : Updater :=
  Updater_mk (max_update_rate_ u) (last_update_time_ u) (map_frame_ u)
    (tree_ u) (frontier_tree_ u) (changed_cell_ u) f
    (x_min_ u) (x_max_ u) (y_min_ u) (y_max_ u) (z_min_ u) (z_max_ u).

(** *** Frontier predicate: the loops shared by [findFrontier] and
    [mergeFrontier] *)

(** The triple loop [for x in -1..1, y in -1..1, z in -1..1] with its
    [continue] on [x == 0 || y == 0 || z == 0]: the offsets for which a
    neighbour is pushed. *)
Definition neighbor_offsets : list (Z * Z * Z) :=
  x ← [-1; 0; 1]; y ← [-1; 0; 1]; z ← [-1; 0; 1];
  if (x =? 0) || (y =? 0) || (z =? 0) then [] else [(x, y, z)].

(** [OcTreeKey neighbor_key(it->k[0]+x, it->k[1]+y, it->k[2]+z)]. *)
Definition neighbor_key (k : OcTreeKey) (o : Z * Z * Z) : OcTreeKey :=
  OcTreeKey_of_ints (k0 k + o.1.1) (k1 k + o.1.2) (k2 k + o.2).

(** The vector [changedCellNeighbor] / [cellNeighbor] of query points. *)
Definition cellNeighbor (t : OcTree) (k : OcTreeKey) : list point3d :=
  (λ o, keyToCoord (params t) (neighbor_key k o)) <$> neighbor_offsets.

(** The loop over the query points, returning
    [(unknownCellFlag, freeCellFlag)]. *)
Definition neighbor_flags (t : OcTree) (qs : list point3d) : bool * bool :=
  foldl (λ (fl : bool * bool) q,
           match search_coord t q with
           | None => (true, fl.2)
           | Some v => if isNodeOccupied t v then fl else (fl.1, true)
           end) (false, false) qs.

(** [unknownCellFlag && freeCellFlag] for the cell of key [k]. *)
Definition flags_ok (t : OcTree) (k : OcTreeKey) : bool :=
  let fl := neighbor_flags t (cellNeighbor t k) in fl.1 && fl.2.

(** *** [findFrontier] *)

Definition outside_box (u : Updater) (p : point3d) : bool :=
  Qlt_bool (px p) (x_min_ u) || Qlt_bool (x_max_ u) (px p) ||
  Qlt_bool (py p) (y_min_ u) || Qlt_bool (y_max_ u) (py p) ||
  Qlt_bool (pz p) (z_min_ u) || Qlt_bool (z_max_ u) (pz p).

(** The body of the loop over [changed_cell_]: whether the key is inserted
    into [frontierCells]. *)
Definition is_new_frontier (u : Updater) (k : OcTreeKey) : bool :=
  if outside_box u (keyToCoord (params (frontier_tree_ u)) k) then false
  else match search (frontier_tree_ u) k with
       | None => false
       | Some v =>
           if negb (isNodeOccupied (frontier_tree_ u) v)
           then flags_ok (frontier_tree_ u) k
           else false
       end.

Definition findFrontier (u : Updater) : KeySet :=
  if decide (size (changed_cell_ u) = 0%nat) then ∅
  else set_fold (λ k (frontierCells : KeySet),
                   if is_new_frontier u k then {[k]} ∪ frontierCells
                   else frontierCells) ∅ (changed_cell_ u).

(** *** [mergeFrontier] *)

(** The body of the first loop: whether the member is inserted into
    [deleteSet]. *)
Definition is_deleted (u : Updater) (k : OcTreeKey) : bool :=
  match search (frontier_tree_ u) k with
  | None => false
  | Some v =>
      if negb (isNodeOccupied (frontier_tree_ u) v)
      then negb (flags_ok (frontier_tree_ u) k)
      else true
  end.

Definition deleteSet (u : Updater) : KeySet :=
  set_fold (λ k (d : KeySet), if is_deleted u k then {[k]} ∪ d else d)
           ∅ (frontier_cell_ u).

Definition mergeFrontier (u : Updater) (newFrontier : KeySet) : Updater :=
  let erased :=
    set_fold (λ k (f : KeySet), f ∖ {[k]}) (frontier_cell_ u) (deleteSet u) in
  let inserted :=
    set_fold (λ k (f : KeySet), {[k]} ∪ f) erased newFrontier in
  set_frontier_cell u inserted.

(** *** [trackChanges] *)

Definition trackChanges (u : Updater) : Updater :=
  let ft := enableChangeDetection (frontier_tree_ u) true in
  let changed :=
    map_fold (λ k (_ : bool) (c : KeySet), {[k]} ∪ c) ∅ (changed_keys ft) in
  set_changed u (resetChangeDetection ft) changed.

(** *** [cloudMsgCallback] *)

(** The four local key sets of the callback. *)
Record Cells : Type := Cells_mk {
  free_cells : KeySet;
  occupied_cells : KeySet;
  model_cells : KeySet;
  clip_cells : KeySet
}.

(** The body of the loops over the cloud: a sample without NaN goes to
    exactly one of the three sets, by its mask. *)
Definition bucket_point (t : OcTree) (c : Cells) (p : CloudPoint) : Cells :=
  if pt_nan p then c
  else
    let k := coordToKey (params t) (pt_map p) in
    match pt_mask p with
    | INSIDE =>
        Cells_mk (free_cells c) (occupied_cells c) ({[k]} ∪ model_cells c)
                 (clip_cells c)
    | CLIP =>
        Cells_mk (free_cells c) (occupied_cells c) (model_cells c)
                 ({[k]} ∪ clip_cells c)
    | OUTSIDE =>
        Cells_mk (free_cells c) ({[k]} ∪ occupied_cells c) (model_cells c)
                 (clip_cells c)
    end.

Definition bucket (t : OcTree) (ps : list CloudPoint) : Cells :=
  foldl (bucket_point t) (Cells_mk ∅ ∅ ∅ ∅) ps.

(** The rate limiter at the head of the callback: whether the frame is
    dropped. *)
Definition rate_limited (u : Updater) (m : CloudMsg) : bool :=
  Qlt_bool 0 (max_update_rate_ u) &&
  Qle_bool (now m - last_update_time_ u) (1 / max_update_rate_ u).

(** Removal of every key of [ks] from [s]: the two reconciliation loops. *)
Definition erase_all (ks s : KeySet) : KeySet :=
  set_fold (λ k (acc : KeySet), acc ∖ {[k]}) s ks.

(** [updateNode(key, occupied)] on [tree_] and then on [frontier_tree_]. *)
Definition update_both (occupied : bool) (k : OcTreeKey)
    (tt : OcTree * OcTree) : OcTree * OcTree :=
  (updateNode tt.1 k occupied, updateNode tt.2 k occupied).

(** [updateNode(key, lg)] on [tree_] and then on [frontier_tree_]. *)
Definition update_both_log (lg : Z) (k : OcTreeKey)
    (tt : OcTree * OcTree) : OcTree * OcTree :=
  (updateNodeLogOdds tt.1 k lg, updateNodeLogOdds tt.2 k lg).

(** The write-locked phase: free cells, then occupied cells, then model
    cells, each written to both trees. *)
Definition commit (tt : OcTree * OcTree) (c : Cells) : OcTree * OcTree :=
  let tt1 := set_fold (update_both false) tt (free_cells c) in
  let tt2 := set_fold (update_both true) tt1 (occupied_cells c) in
  let lg := clamping_thres_min (params tt2.1)
            - clamping_thres_max (params tt2.1) in
  set_fold (update_both_log lg) tt2 (model_cells c).

(** The two loops between the locked phases: model keys leave the occupied
    set, then the remaining occupied keys leave the free set. *)
Definition reconcile (c : Cells) : Cells :=
  let occ := erase_all (model_cells c) (occupied_cells c) in
  let free := erase_all occ (free_cells c) in
  Cells_mk free occ (model_cells c) (clip_cells c).

Section Callback.

(** [tree_->computeRayKeys(origin, end, key_ray_)] of octomap, not part of
    the source file: [None] when it returns false, else the keys left in
    [key_ray_]. *)
Variable computeRayKeys : OcTree → point3d → point3d → option (list OcTreeKey).

(** One of the three ray loops: the rays ending at the keys of [ends]. *)
Definition trace_rays (t : OcTree) (origin : point3d) (ends free : KeySet)
  : KeySet :=
  set_fold (λ k (acc : KeySet),
              match computeRayKeys t origin (keyToCoord (params t) k) with
              | Some key_ray => list_to_set key_ray ∪ acc
              | None => acc
              end) free ends.

(** The three ray loops: occupied, then model, then clip endpoints. *)
Definition compute_free (t : OcTree) (origin : point3d) (c : Cells) : Cells :=
  let f1 := trace_rays t origin (occupied_cells c) (free_cells c) in
  let f2 := trace_rays t origin (model_cells c) f1 in
  let f3 := trace_rays t origin (clip_cells c) f2 in
  Cells_mk f3 (occupied_cells c) (model_cells c) (clip_cells c).

(** The key sets at the start of the write-locked phase. *)
Definition frame_cells (t : OcTree) (origin : point3d)
    (ps : list CloudPoint) : Cells :=
  reconcile (compute_free t origin (bucket t ps)).

(** The callback after its early returns: from the bucketing of the cloud
    to the merge of the frontier. *)
Definition process_cloud (u : Updater) (origin : point3d)
    (ps : list CloudPoint) : Updater :=
  let c := frame_cells (tree_ u) origin ps in
  let tt := commit (tree_ u, frontier_tree_ u) c in
  let u1 := set_trees u tt.1 tt.2 in
  let u2 := trackChanges u1 in
  let newFrontier := findFrontier u2 in
  mergeFrontier u2 newFrontier.

(** The origin of [map_h_sensor]: the identity when the cloud is already in
    the map frame, else the transform looked up in the tf buffer. *)
Definition sensor_origin (u : Updater) (m : CloudMsg) : option point3d :=
  if decide (map_frame_ u = frame_id m) then Some (point3d_mk 0 0 0)
  else lookupTransform m.

Definition cloudMsgCallback (u : Updater) (m : CloudMsg) : Updater :=
  if rate_limited u m then u
  else
    let u1 := if Qlt_bool 0 (max_update_rate_ u)
              then set_last_update_time u (now m) else u in
    let u2 := if decide (map_frame_ u1 = EmptyString)
              then set_map_frame u1 (frame_id m) else u1 in
    match sensor_origin u2 m with
    | None => u2
    | Some origin =>
        if transform_cache_ok m then process_cloud u2 origin (samples m)
        else u2
    end.

End Callback.

(** * Notions used in the statements *)

(** A write whose increment is read from the parameters of the tree it is
    applied to: both [updateNode] overloads have this form. *)
Definition write (d : OcTreeParams → Z) (k : OcTreeKey) (t : OcTree) : OcTree :=
  updateNodeLogOdds t k (d (params t)).

Definition bool_increment (occupied : bool) (P : OcTreeParams) : Z :=
  if occupied then prob_hit_log P else prob_miss_log P.

(** The value a write leaves in a cell whose prior content is [prior]. *)
Definition written (P : OcTreeParams) (d : OcTreeParams → Z)
    (prior : option Z) : Z :=
  clamp P (default 0 prior + d P).

(** The entry of a key in the map of changed keys after an update of its
    cell from [prior] to [v], from its entry [pending] before. *)
Definition entry_after (t : OcTree) (prior : option Z) (v : Z)
    (pending : option bool) : option bool :=
  if use_change_detection t then
    match prior with
    | None => Some (default true pending)
    | Some v0 =>
        if negb (eqb (isNodeOccupied t v0) (isNodeOccupied t v))
        then match pending with
             | None => Some false
             | Some false => None
             | Some true => Some true
             end
        else pending
    end
  else pending.

(** The entry [e] of a key records how its cell went from the content
    [n0] to the content [n]: [true] for a node created, [false] for a node
    whose occupancy differs, none otherwise. *)
Definition entry_tracks (t : OcTree) (n0 n : option Z) (e : option bool)
  : Prop :=
  match n0, n with
  | None, None => e = None
  | None, Some _ => e = Some true
  | Some v0, Some v =>
      e = if eqb (isNodeOccupied t v0) (isNodeOccupied t v)
          then None else Some false
  | Some _, None => False
  end.

(** The cell of [k] has a node in [t'] and either had none in [t] or had
    one of the other occupancy. *)
Definition cell_reclassified (t t' : OcTree) (k : OcTreeKey) : Prop :=
  match nodes t !! k, nodes t' !! k with
  | None, Some _ => True
  | Some v, Some v' => isNodeOccupied t v ≠ isNodeOccupied t v'
  | _, None => False
  end.

(** The effect of one loop of writes over the key set [S]. *)
Record writes_spec (d : OcTreeParams → Z) (t : OcTree) (S : KeySet)
    (t' : OcTree) : Prop := {
  ws_params : params t' = params t;
  ws_armed : use_change_detection t' = use_change_detection t;
  ws_nodes : ∀ k, nodes t' !! k =
                  if decide (k ∈ S)
                  then Some (written (params t) d (nodes t !! k))
                  else nodes t !! k;
  ws_changed : ∀ k, changed_keys t' !! k =
                    if decide (k ∈ S)
                    then entry_after t (nodes t !! k)
                           (written (params t) d (nodes t !! k))
                           (changed_keys t !! k)
                    else changed_keys t !! k
}.

(** The three loops of the commit as seen by one of the two trees. *)
Definition commit_tree (lg : Z) (t : OcTree) (c : Cells) : OcTree :=
  let t1 := set_fold (write (bool_increment false)) t (free_cells c) in
  let t2 := set_fold (write (bool_increment true)) t1 (occupied_cells c) in
  set_fold (write (λ _, lg)) t2 (model_cells c).

(** The increment [lg] of the model cells, read from [tree_]. *)
Definition model_increment (t : OcTree) : Z :=
  clamping_thres_min (params t) - clamping_thres_max (params t).

(** The thresholds are ordered as their meaning requires: the clamping
    interval is not empty, it contains the even-odds value 0 given to a new
    cell on its upper side, and its lower end does not exceed the occupancy
    threshold. *)
Definition params_ok (P : OcTreeParams) : Prop :=
  clamping_thres_min P ≤ clamping_thres_max P ∧
  0 ≤ clamping_thres_max P ∧
  clamping_thres_min P ≤ occ_prob_thres_log P.

(** The invariant of the occupancy map: every stored value lies within the
    clamping interval. *)
Definition within_clamp (t : OcTree) : Prop :=
  ∀ k v, nodes t !! k = Some v →
         clamping_thres_min (params t) ≤ v ≤ clamping_thres_max (params t).

(** The test both [findFrontier] and [mergeFrontier] make on a cell: it has
    a node, the node is not occupied, and both flags were raised by its
    enumerated neighbours. *)
Definition is_frontier (t : OcTree) (k : OcTreeKey) : bool :=
  match search t k with
  | None => false
  | Some v => negb (isNodeOccupied t v) && flags_ok t k
  end.

(** The 26-neighbourhood in the words of the specification: the offsets
    of {-1,0,1}^3 with at least one nonzero component. *)
Definition spec_neighbor_offsets : list (Z * Z * Z) :=
  x ← [-1; 0; 1]; y ← [-1; 0; 1]; z ← [-1; 0; 1];
  if (x =? 0) && (y =? 0) && (z =? 0) then [] else [(x, y, z)].



(** The bounding volume as a proposition. *)
Definition inside_box (u : Updater) (p : point3d) : Prop :=
  (x_min_ u <= px p)%Q ∧ (px p <= x_max_ u)%Q ∧
  (y_min_ u <= py p)%Q ∧ (py p <= y_max_ u)%Q ∧
  (z_min_ u <= pz p)%Q ∧ (pz p <= z_max_ u)%Q.

(** One call made on a tree during the commit. *)
Inductive Update : Type :=
  | UpdateBool (k : OcTreeKey) (occupied : bool)
  | UpdateLog (k : OcTreeKey) (lg : Z).

Definition apply_update (t : OcTree) (w : Update) : OcTree :=
  match w with
  | UpdateBool k occupied => updateNode t k occupied
  | UpdateLog k lg => updateNodeLogOdds t k lg
  end.

(** The order in which a loop, modelled by [set_fold], visits a key set. *)
Definition visit_order (S : KeySet) : list OcTreeKey := reverse (elements S).

(** The calls of the commit in the order they are made. *)
Definition commit_updates (lg : Z) (c : Cells) : list Update :=
  ((λ k, UpdateBool k false) <$> visit_order (free_cells c)) ++
  ((λ k, UpdateBool k true) <$> visit_order (occupied_cells c)) ++
  ((λ k, UpdateLog k lg) <$> visit_order (model_cells c)).

(** Two trees with the same parameters and the same stored values. *)
Definition same_map (t ft : OcTree) : Prop :=
  params t = params ft ∧ nodes t = nodes ft.

(** ** Example data *)

Module Examples.

Definition P0 : OcTreeParams :=
  {| resolution := 1 # 10; tree_max_val := 32768;
     prob_hit_log := 85; prob_miss_log := -40;
     clamping_thres_min := -200; clamping_thres_max := 350;
     occ_prob_thres_log := 0 |}.

Definition K (a b c : Z) : OcTreeKey :=
  OcTreeKey_mk (32768 + a) (32768 + b) (32768 + c).

Definition box_updater (t ft : OcTree) (changed frontier : KeySet) : Updater :=
  Updater_mk 0 0 EmptyString t ft changed frontier
             (-10) 10 (-10) 10 (-10) 10.

(** A free cell at the origin key whose only known neighbour is the free
    cell across its +x face. *)
Definition face_tree : OcTree :=
  OcTree_mk P0 (<[K 0 0 0 := -40]> (<[K 1 0 0 := -40]> ∅)) true ∅.

Definition face_updater : Updater :=
  box_updater face_tree face_tree {[K 0 0 0]} ∅.

(** The same map with that cell as the one member of the persistent
    frontier set. *)
Definition face_member_updater : Updater :=
  box_updater face_tree face_tree ∅ {[K 0 0 0]}.

(** A free cell at the origin key with a free cell at the (1,1,1) corner. *)
Definition corner_tree : OcTree :=
  OcTree_mk P0 (<[K 0 0 0 := -40]> (<[K 1 1 1 := -40]> ∅)) true ∅.

Definition corner_updater : Updater :=
  box_updater corner_tree corner_tree {[K 0 0 0]} {[K 0 0 0]}.

(** A persistent frontier set with a member whose cell is occupied and a
    member whose cell has no node. *)
Definition stale_tree : OcTree :=
  OcTree_mk P0 (<[K 5 5 5 := 100]> ∅) true ∅.

Definition stale_updater : Updater :=
  box_updater stale_tree stale_tree ∅ ({[K 5 5 5]} ∪ {[K 9 9 9]}).

(** A ray traversal for endpoints straight along +x from the origin: the
    keys from the cell of the origin up to, not including, the cell of the
    endpoint; failure for every other endpoint. *)
Definition axis_ray (t : OcTree) (o e : point3d) : option (list OcTreeKey) :=
  let ko := coordToKey (params t) o in
  let ke := coordToKey (params t) e in
  if decide (k1 ko = k1 ke ∧ k2 ko = k2 ke ∧ k0 ko ≤ k0 ke)
  then Some ((λ i, OcTreeKey_mk (k0 ko + Z.of_nat i) (k1 ko) (k2 ko))
               <$> seq 0 (Z.to_nat (k0 ke - k0 ko)))
  else None.

(** A cloud with an OUTSIDE and an INSIDE point in the cell [K 1 0 0] and
    an OUTSIDE point in the cell [K 2 0 0]. *)
Definition overlap_cloud : list CloudPoint :=
  [ Build_CloudPoint false (point3d_mk (3 # 20) (1 # 20) (1 # 20)) OUTSIDE;
    Build_CloudPoint false (point3d_mk (3 # 20) (1 # 20) (1 # 20)) INSIDE;
    Build_CloudPoint false (point3d_mk (5 # 20) (1 # 20) (1 # 20)) OUTSIDE ].

(** An updater whose two trees are empty and were never armed for change
    detection, and a frame that brings [overlap_cloud] in the map frame. *)
Definition fresh_updater : Updater :=
  box_updater (OcTree_mk P0 ∅ false ∅) (OcTree_mk P0 ∅ false ∅) ∅ ∅.

Definition overlap_msg : CloudMsg :=
  Build_CloudMsg 1 "map" None true overlap_cloud.

(** An updater whose frontier tree holds the free cells [K 0 0 0] and
    [K 1 0 0], with the change detection armed and no key recorded. *)
Definition known_updater : Updater :=
  box_updater face_tree face_tree ∅ ∅.

(** The same updater with the change detection of its frontier tree
    armed. *)
Definition armed_updater : Updater :=
  box_updater (OcTree_mk P0 ∅ false ∅) (OcTree_mk P0 ∅ true ∅) ∅ ∅.

(** A map with one free cell at [K 2 1 1], recording armed, and a cloud
    with one point in the cell [K 2 0 0]: the ray from [K 0 0 0] makes
    [K 1 0 0] free, with a free and an unknown corner neighbour. *)
Definition grow_updater : Updater :=
  box_updater (OcTree_mk P0 (<[K 2 1 1 := -40]> ∅) false ∅)
              (OcTree_mk P0 (<[K 2 1 1 := -40]> ∅) true ∅) ∅ ∅.

Definition grow_cloud : list CloudPoint :=
  [ Build_CloudPoint false (point3d_mk (5 # 20) (1 # 20) (1 # 20)) OUTSIDE ].

End Examples.

(** ** Frontier markers: [publishFrontierNew] *)

(** The fields of a [visualization_msgs::Marker] that [publishFrontierNew]
    sets apart from its time stamp, action and type. *)
Record Marker : Type := {
  marker_frame : string;
  marker_ns : string;
  marker_id : Z;
  marker_position : point3d;
  marker_scale : Q * Q * Q;
  marker_color : Q * Q * Q * Q
}.

(** The body of the loop over [frontier_cell_]: the marker takes the running
    [id], which is then incremented, and is pushed to the back of the
    array. *)
Definition push_marker (t : OcTree) (map_resolution_ : Q)
    (acc : Z * list Marker) (key : OcTreeKey) : Z * list Marker :=
  (acc.1 + 1,
   acc.2 ++ [ {| marker_frame := "world";
                 marker_ns := "frontier_cells";
                 marker_id := acc.1;
                 marker_position := keyToCoord (params t) key;
                 marker_scale :=
                   (map_resolution_, map_resolution_, map_resolution_);
                 marker_color := (0, 1, 1, 1)%Q |} ]).

(** [publishFrontierNew]: [None] when it returns without publishing, else
    the marker array it publishes.  [map_resolution_] is a member of the
    class that the callback does not write. *)
Definition publishFrontierNew (u : Updater) (map_resolution_ : Q)
  : option (list Marker) :=
  if decide (size (frontier_cell_ u) = 0%nat) then None
  else Some (foldl (push_marker (frontier_tree_ u) map_resolution_)
                   (0, []) (visit_order (frontier_cell_ u))).2.

(** ** Subscription: [initialize], [start], [stop] *)

(** A [message_filters::Subscriber] as [start] creates it: its topic, its
    queue size, and whether the callback was registered on it. *)
Record Subscriber : Type := {
  sub_topic : string;
  sub_queue : Z;
  sub_callback : bool
}.

(** A [tf2_ros::MessageFilter] as [start] creates it: its target frame, its
    queue size, and whether the callback was registered on it. *)
Record MessageFilter : Type := {
  filter_target : string;
  filter_queue : Z;
  filter_callback : bool
}.

(** The members read or written by [initialize], [start] and [stop]; the
    two tf pointers are modelled by whether they are set. *)
Record Lifecycle : Type := Lifecycle_mk {
  tf_buffer_ : bool;
  tf_listener_ : bool;
  point_cloud_topic_ : string;
  point_cloud_subscriber_ : option Subscriber;
  point_cloud_filter_ : option MessageFilter
}.

(** [initialize]: both tf pointers are reset to new objects; the result is
    always [true]. *)
Definition initialize (l : Lifecycle) : Lifecycle * bool :=
  (Lifecycle_mk true true (point_cloud_topic_ l)
     (point_cloud_subscriber_ l) (point_cloud_filter_ l), true).

(** [start], given the map frame held by the monitor. *)
Definition start (l : Lifecycle) (map_frame : string) : Lifecycle :=
  match point_cloud_subscriber_ l with
  | Some _ => l
  | None =>
      if tf_listener_ l && tf_buffer_ l
         && negb (bool_decide (map_frame = EmptyString))
      then Lifecycle_mk (tf_buffer_ l) (tf_listener_ l) (point_cloud_topic_ l)
             (Some {| sub_topic := point_cloud_topic_ l; sub_queue := 5;
                      sub_callback := false |})
             (Some {| filter_target := map_frame; filter_queue := 5;
                      filter_callback := true |})
      else Lifecycle_mk (tf_buffer_ l) (tf_listener_ l) (point_cloud_topic_ l)
             (Some {| sub_topic := point_cloud_topic_ l; sub_queue := 5;
                      sub_callback := true |})
             (point_cloud_filter_ l)
  end.

(** [stop]: both objects are deleted and both pointers set to null. *)
Definition stop (l : Lifecycle) : Lifecycle :=
  Lifecycle_mk (tf_buffer_ l) (tf_listener_ l) (point_cloud_topic_ l)
               None None.

(** The number of registrations of [cloudMsgCallback] that are live. *)
Definition callback_registrations (l : Lifecycle) : nat :=
  (match point_cloud_subscriber_ l with
   | Some s => if sub_callback s then 1 else 0
   | None => 0
   end +
   match point_cloud_filter_ l with
   | Some f => if filter_callback f then 1 else 0
   | None => 0
   end)%nat.

(** ** The value of a cell after the commit *)

(** The content of a cell after the three loops of the commit, from its
    content before and its membership in the three committed sets. *)
Definition cell_after (P : OcTreeParams) (lg : Z) (c : Cells)
    (k : OcTreeKey) (v0 : option Z) : option Z :=
  let v1 := if decide (k ∈ free_cells c)
            then Some (clamp P (default 0 v0 + prob_miss_log P)) else v0 in
  let v2 := if decide (k ∈ occupied_cells c)
            then Some (clamp P (default 0 v1 + prob_hit_log P)) else v1 in
  if decide (k ∈ model_cells c)
  then Some (clamp P (default 0 v2 + lg)) else v2.

(** The persistent frontier set holds no stale member with respect to the
    tree: a member either has no node or passes the frontier test. *)
Definition frontier_valid (u : Updater) : Prop :=
  ∀ k, k ∈ frontier_cell_ u →
       search (frontier_tree_ u) k = None ∨
       is_frontier (frontier_tree_ u) k = true.

(** The body of the loop over the query points of [findFrontier] and
    [mergeFrontier], as a function of the two flags. *)
Definition flag_step (t : OcTree) (fl : bool * bool) (q : point3d)
  : bool * bool :=
  match search_coord t q with
  | None => (true, fl.2)
  | Some v => if isNodeOccupied t v then fl else (fl.1, true)
  end.

(** The case analysis of [cloudMsgCallback]: dropped by the rate limiter,
    or else, for each way the time stamp and the map frame were or were not
    written, abandoned for want of a transform or processed. *)
Ltac callback_cases u m :=
  unfold cloudMsgCallback;
  destruct (rate_limited u m) eqn:?;
  [|destruct (Qlt_bool 0 (max_update_rate_ u)) eqn:?;
    (match goal with
     | |- context [decide (map_frame_ ?w = EmptyString)] =>
         destruct (decide (map_frame_ w = EmptyString))
     end);
    (match goal with
     | |- context [sensor_origin ?w m] =>
         destruct (sensor_origin w m) eqn:?;
         [destruct (transform_cache_ok m) eqn:?|]
     end)].

(** * Properties *)

(** ** Loops over key sets *)

Lemma fold_insert_keys (X acc : KeySet) :
  set_fold (λ k (c : KeySet), {[k]} ∪ c) acc X = X ∪ acc.
Proof.
  apply (set_fold_ind_L (λ r Y, r = Y ∪ acc)); [set_solver|].
  intros x Y r _ ->. set_solver.
Qed.

Lemma erase_all_difference (ks s : KeySet) : erase_all ks s = s ∖ ks.
Proof.
  unfold erase_all.
  apply (set_fold_ind_L (λ r Y, r = s ∖ Y)); [set_solver|].
  intros x Y r _ ->. set_solver.
Qed.

Lemma elem_of_fold_filter (f : OcTreeKey → bool) (X : KeySet) (k : OcTreeKey) :
  k ∈ set_fold (λ x (acc : KeySet), if f x then {[x]} ∪ acc else acc) ∅ X
  ↔ k ∈ X ∧ f k = true.
Proof.
  apply (set_fold_ind_L (λ r Y, k ∈ r ↔ k ∈ Y ∧ f k = true)); [set_solver|].
  intros x Y r Hx IH. destruct (f x) eqn:Hf.
  - rewrite !elem_of_union, !elem_of_singleton, IH.
    split; [intros [->|[? ?]]; auto | intros [[->|?] ?]; auto].
  - rewrite IH, elem_of_union, elem_of_singleton.
    split; [intros [? ?]; auto | intros [[->|?] ?]; [congruence|auto]].
Qed.

Lemma fold_pair {A : Type} (f g : OcTreeKey → A → A) (a b : A) (X : KeySet) :
  set_fold (λ k (p : A * A), (f k p.1, g k p.2)) (a, b) X
  = (set_fold f a X, set_fold g b X).
Proof.
  unfold set_fold; simpl. induction (elements X) as [|x l IH]; [done|].
  simpl. by rewrite IH.
Qed.

(** ** The key codec *)

Lemma Qfloor_half (n : Z) : Qfloor (inject_Z n + (1 # 2))%Q = n.
Proof.
  unfold Qfloor, Qplus, inject_Z; simpl.
  symmetry. apply (Z.div_unique_pos _ _ _ 1); lia.
Qed.

(** Decoding a key component to the centre of its voxel and encoding it
    again gives the component back. *)
Lemma coordToKey1_keyToCoord1 (P : OcTreeParams) (n : Z) :
  (0 < resolution P)%Q → coordToKey1 P (keyToCoord1 P n) = n.
Proof.
  intros Hr. unfold coordToKey1, keyToCoord1.
  assert (Hq : ((inject_Z (n - tree_max_val P) + (1 # 2)) * resolution P
                / resolution P == inject_Z (n - tree_max_val P) + (1 # 2))%Q).
  { apply Qdiv_mult_l. intros H0. rewrite H0 in Hr. by apply Qlt_irrefl in Hr. }
  rewrite (Qfloor_comp _ _ Hq), Qfloor_half. lia.
Qed.

(** The lookup of the centre of the voxel of a key that is within the key
    range of the tree is the lookup of the key. *)
Lemma search_coord_keyToCoord (t : OcTree) (k : OcTreeKey) :
  (0 < resolution (params t))%Q →
  in_key_range (params t) (k0 k) = true →
  in_key_range (params t) (k1 k) = true →
  in_key_range (params t) (k2 k) = true →
  search_coord t (keyToCoord (params t) k) = search t k.
Proof.
  intros Hr H0 H1 H2. unfold search_coord, coordToKeyChecked; simpl.
  rewrite !coordToKey1_keyToCoord1 by done. rewrite H0, H1, H2; simpl.
  by destruct k.
Qed.

(** With the 16 levels of an octomap tree every neighbour key is within
    the key range, so the neighbours are looked up by their keys. *)
Lemma search_coord_neighbor (t : OcTree) (k : OcTreeKey) (o : Z * Z * Z) :
  (0 < resolution (params t))%Q → tree_max_val (params t) = 32768 →
  search_coord t (keyToCoord (params t) (neighbor_key k o))
  = search t (neighbor_key k o).
Proof.
  intros Hr Hm.
  assert (Hin : ∀ n, in_key_range (params t) (to_key_type n) = true).
  { intros n. unfold in_key_range, to_key_type. rewrite Hm.
    pose proof (Z.mod_pos_bound n 65536 ltac:(lia)).
    apply andb_true_iff. split; [apply Z.leb_le|apply Z.ltb_lt]; lia. }
  apply search_coord_keyToCoord; [done|apply Hin..].
Qed.

(** ** Writes to one tree *)

Lemma updateNode_write (occupied : bool) (k : OcTreeKey) (t : OcTree) :
  updateNode t k occupied = write (bool_increment occupied) k t.
Proof. reflexivity. Qed.

Lemma record_change_lookup (t : OcTree) (k k' : OcTreeKey)
    (prior : option Z) (v : Z) :
  use_change_detection t = true →
  record_change t k prior v !! k'
  = if decide (k' = k) then entry_after t prior v (changed_keys t !! k)
    else changed_keys t !! k'.
Proof.
  intros Ha. unfold record_change, entry_after. rewrite Ha.
  destruct (decide (k' = k)) as [->|Hne].
  - destruct prior as [v0|].
    + destruct (negb _); [|done].
      destruct (changed_keys t !! k) as [[|]|] eqn:E;
        by rewrite ?lookup_insert_eq, ?lookup_delete_eq.
    + destruct (changed_keys t !! k) as [b|] eqn:E;
        by rewrite ?lookup_insert_eq.
  - destruct prior as [v0|].
    + destruct (negb _); [|done].
      destruct (changed_keys t !! k) as [[|]|] eqn:E;
        by rewrite ?lookup_insert_ne, ?lookup_delete_ne.
    + destruct (changed_keys t !! k) as [b|] eqn:E;
        by rewrite ?lookup_insert_ne.
Qed.

Lemma entry_after_same (t r : OcTree) (prior : option Z) (v : Z)
    (pending : option bool) :
  params r = params t → use_change_detection r = use_change_detection t →
  entry_after r prior v pending = entry_after t prior v pending.
Proof.
  intros Hp Ha. unfold entry_after, isNodeOccupied. by rewrite Hp, Ha.
Qed.

Lemma fold_write_spec (d : OcTreeParams → Z) (t : OcTree) (S : KeySet) :
  writes_spec d t S (set_fold (write d) t S).
Proof.
  apply (set_fold_ind_L (λ r Y, writes_spec d t Y r)).
  - split; try done.
  - intros x Y r Hx [Hp Ha Hn Hc].
    assert (Hrx : nodes r !! x = nodes t !! x).
    { rewrite Hn. by rewrite decide_False. }
    assert (Hcx : changed_keys r !! x = changed_keys t !! x).
    { rewrite Hc. by rewrite decide_False. }
    split; simpl.
    + exact Hp.
    + exact Ha.
    + intros k. destruct (decide (k = x)) as [->|Hne].
      * rewrite lookup_insert_eq, decide_True by set_solver.
        by rewrite Hrx, Hp.
      * rewrite lookup_insert_ne by done. rewrite Hn.
        destruct (decide (k ∈ Y)).
        -- by rewrite decide_True by set_solver.
        -- by rewrite decide_False by set_solver.
    + intros k. destruct (use_change_detection r) eqn:Hr.
      * rewrite record_change_lookup by done.
        destruct (decide (k = x)) as [->|Hne].
        -- rewrite decide_True by set_solver.
           rewrite Hrx, Hcx, Hp. unfold written.
           apply entry_after_same; congruence.
        -- rewrite Hc. destruct (decide (k ∈ Y)).
           ++ by rewrite decide_True by set_solver.
           ++ by rewrite decide_False by set_solver.
      * rewrite Hc. destruct (decide (k = x)) as [->|Hne].
        -- rewrite decide_False by done. rewrite decide_True by set_solver.
           unfold entry_after. by rewrite <- Ha.
        -- destruct (decide (k ∈ Y)).
           ++ by rewrite decide_True by set_solver.
           ++ by rewrite decide_False by set_solver.
Qed.

(** ** The commit, tree by tree *)

Lemma commit_split (tt : OcTree * OcTree) (c : Cells) :
  commit tt c = (commit_tree (model_increment tt.1) tt.1 c,
                 commit_tree (model_increment tt.1) tt.2 c).
Proof.
  destruct tt as [t ft]. unfold commit, commit_tree.
  change (update_both false)
    with (λ k (p : OcTree * OcTree),
            (write (bool_increment false) k p.1,
             write (bool_increment false) k p.2)).
  change (update_both true)
    with (λ k (p : OcTree * OcTree),
            (write (bool_increment true) k p.1,
             write (bool_increment true) k p.2)).
  rewrite !fold_pair. simpl.
  pose proof (fold_write_spec (bool_increment false) t (free_cells c)) as H1.
  pose proof (fold_write_spec (bool_increment true)
                (set_fold (write (bool_increment false)) t (free_cells c))
                (occupied_cells c)) as H2.
  rewrite (ws_params _ _ _ _ H2), (ws_params _ _ _ _ H1).
  unfold model_increment; simpl.
  set (lg := clamping_thres_min (params t) - clamping_thres_max (params t)).
  change (update_both_log lg)
    with (λ k (p : OcTree * OcTree),
            (write (λ _, lg) k p.1, write (λ _, lg) k p.2)).
  by rewrite fold_pair.
Qed.

Lemma commit_tree_params (lg : Z) (t : OcTree) (c : Cells) :
  params (commit_tree lg t c) = params t.
Proof.
  unfold commit_tree.
  rewrite (ws_params _ _ _ _ (fold_write_spec _ _ _)).
  rewrite (ws_params _ _ _ _ (fold_write_spec _ _ _)).
  apply (ws_params _ _ _ _ (fold_write_spec _ _ _)).
Qed.

Lemma commit_tree_armed (lg : Z) (t : OcTree) (c : Cells) :
  use_change_detection (commit_tree lg t c) = use_change_detection t.
Proof.
  unfold commit_tree.
  rewrite (ws_armed _ _ _ _ (fold_write_spec _ _ _)).
  rewrite (ws_armed _ _ _ _ (fold_write_spec _ _ _)).
  apply (ws_armed _ _ _ _ (fold_write_spec _ _ _)).
Qed.

(** The stored values after one loop of writes depend only on the
    parameters and the stored values before it, not on the change
    detection state. *)
Lemma fold_write_same_map (d : OcTreeParams → Z) (t t' : OcTree) (S : KeySet) :
  params t = params t' → nodes t = nodes t' →
  nodes (set_fold (write d) t S) = nodes (set_fold (write d) t' S).
Proof.
  intros Hp Hn. apply map_eq. intros k.
  rewrite (ws_nodes _ _ _ _ (fold_write_spec d t S)).
  rewrite (ws_nodes _ _ _ _ (fold_write_spec d t' S)).
  by rewrite Hp, Hn.
Qed.

Lemma commit_tree_same_map (lg : Z) (t t' : OcTree) (c : Cells) :
  params t = params t' → nodes t = nodes t' →
  nodes (commit_tree lg t c) = nodes (commit_tree lg t' c).
Proof.
  intros Hp Hn. unfold commit_tree.
  apply fold_write_same_map.
  - rewrite !(ws_params _ _ _ _ (fold_write_spec _ _ _)). exact Hp.
  - apply fold_write_same_map.
    + rewrite !(ws_params _ _ _ _ (fold_write_spec _ _ _)). exact Hp.
    + by apply fold_write_same_map.
Qed.

Lemma entry_tracks_write (t : OcTree) (n0 n : option Z) (e : option bool)
    (v : Z) :
  use_change_detection t = true →
  entry_tracks t n0 n e → entry_tracks t n0 (Some v) (entry_after t n v e).
Proof.
  intros Ha. unfold entry_tracks, entry_after. rewrite Ha.
  destruct n0 as [v0|], n as [w|]; try done; intros ->; simpl; try done.
  - by destruct (isNodeOccupied t v0), (isNodeOccupied t w),
               (isNodeOccupied t v).
  - by destruct (negb _).
Qed.

Lemma entry_tracks_params (r t : OcTree) (n0 n : option Z)
    (e : option bool) :
  params r = params t → entry_tracks r n0 n e → entry_tracks t n0 n e.
Proof. intros Hp. unfold entry_tracks, isNodeOccupied. by rewrite Hp. Qed.

Lemma fold_write_tracks (d : OcTreeParams → Z) (t : OcTree) (S : KeySet)
    (k : OcTreeKey) (n0 : option Z) :
  use_change_detection t = true →
  entry_tracks t n0 (nodes t !! k) (changed_keys t !! k) →
  entry_tracks t n0 (nodes (set_fold (write d) t S) !! k)
                    (changed_keys (set_fold (write d) t S) !! k).
Proof.
  intros Ha H. destruct (fold_write_spec d t S) as [_ _ Hn Hc].
  rewrite Hn, Hc. destruct (decide (k ∈ S)); [|exact H].
  by apply entry_tracks_write.
Qed.

(** With the change detection armed and no entry pending, the keys with an
    entry after the commit are those whose cell was created or changed its
    occupancy. *)
Lemma commit_tree_recorded (lg : Z) (t : OcTree) (c : Cells) (k : OcTreeKey) :
  use_change_detection t = true → changed_keys t = ∅ →
  k ∈ dom (changed_keys (commit_tree lg t c)) ↔
  cell_reclassified t (commit_tree lg t c) k.
Proof.
  intros Ha He. unfold commit_tree.
  set (t1 := set_fold (write (bool_increment false)) t (free_cells c)).
  set (t2 := set_fold (write (bool_increment true)) t1 (occupied_cells c)).
  set (t3 := set_fold (write (λ _, lg)) t2 (model_cells c)).
  assert (P1 : params t1 = params t)
    by apply (ws_params _ _ _ _ (fold_write_spec _ _ _)).
  assert (P2 : params t2 = params t1)
    by apply (ws_params _ _ _ _ (fold_write_spec _ _ _)).
  assert (A1 : use_change_detection t1 = true).
  { unfold t1. by rewrite (ws_armed _ _ _ _ (fold_write_spec _ _ _)). }
  assert (A2 : use_change_detection t2 = true).
  { unfold t2. by rewrite (ws_armed _ _ _ _ (fold_write_spec _ _ _)). }
  assert (I0 : entry_tracks t (nodes t !! k) (nodes t !! k)
                 (changed_keys t !! k)).
  { rewrite He, lookup_empty. unfold entry_tracks.
    destruct (nodes t !! k); [|done]. by rewrite eqb_reflx. }
  assert (I1 : entry_tracks t1 (nodes t !! k) (nodes t1 !! k)
                 (changed_keys t1 !! k)).
  { apply (entry_tracks_params t); [done|]. by apply fold_write_tracks. }
  assert (I2 : entry_tracks t2 (nodes t !! k) (nodes t2 !! k)
                 (changed_keys t2 !! k)).
  { apply (entry_tracks_params t1); [done|]. by apply fold_write_tracks. }
  assert (I3 : entry_tracks t (nodes t !! k) (nodes t3 !! k)
                 (changed_keys t3 !! k)).
  { apply (entry_tracks_params t2); [congruence|].
    by apply fold_write_tracks. }
  rewrite elem_of_dom. unfold cell_reclassified, entry_tracks in *.
  destruct (nodes t !! k) as [v0|], (nodes t3 !! k) as [v|];
    rewrite ?I3; try done;
    try (destruct (isNodeOccupied t v0), (isNodeOccupied t v); simpl;
         split; try done; by intros [? ?]);
    try (split; [by intros [? ?]|done]).
Qed.

(** A key outside the three committed sets keeps its entry. *)
Lemma commit_tree_entry_other (lg : Z) (t : OcTree) (c : Cells)
    (k : OcTreeKey) :
  k ∉ free_cells c ∪ occupied_cells c ∪ model_cells c →
  changed_keys (commit_tree lg t c) !! k = changed_keys t !! k.
Proof.
  intros Hk. unfold commit_tree.
  rewrite (ws_changed _ _ _ _ (fold_write_spec _ _ _)).
  rewrite decide_False by set_solver.
  rewrite (ws_changed _ _ _ _ (fold_write_spec _ _ _)).
  rewrite decide_False by set_solver.
  rewrite (ws_changed _ _ _ _ (fold_write_spec _ _ _)).
  by rewrite decide_False by set_solver.
Qed.

Lemma fold_map_keys (m : gmap OcTreeKey bool) :
  map_fold (λ k (_ : bool) (c : KeySet), {[k]} ∪ c) ∅ m = dom m.
Proof.
  apply (map_fold_weak_ind (λ r m, r = dom m)).
  - by rewrite dom_empty_L.
  - intros k b m' r _ ->. by rewrite dom_insert_L.
Qed.

(** A loop of writes leaves the cells outside its key set alone. *)
Lemma fold_write_other (d : OcTreeParams → Z) (t : OcTree) (S : KeySet)
    (k : OcTreeKey) :
  k ∉ S → nodes (set_fold (write d) t S) !! k = nodes t !! k.
Proof.
  intros Hk. rewrite (ws_nodes _ _ _ _ (fold_write_spec d t S)).
  by rewrite decide_False.
Qed.

Lemma commit_tree_other (lg : Z) (t : OcTree) (c : Cells) (k : OcTreeKey) :
  k ∉ free_cells c → k ∉ occupied_cells c → k ∉ model_cells c →
  nodes (commit_tree lg t c) !! k = nodes t !! k.
Proof.
  intros Hf Ho Hm. unfold commit_tree. by rewrite !fold_write_other.
Qed.

(** ** Clamping *)

Lemma clamp_range (P : OcTreeParams) (v : Z) :
  clamping_thres_min P ≤ clamping_thres_max P →
  clamping_thres_min P ≤ clamp P v ≤ clamping_thres_max P.
Proof.
  intros H. unfold clamp.
  destruct (v <? clamping_thres_min P) eqn:E1; [lia|].
  destruct (clamping_thres_max P <? v) eqn:E2; lia.
Qed.

Lemma clamp_low (P : OcTreeParams) (v : Z) :
  clamping_thres_min P ≤ clamping_thres_max P →
  v ≤ clamping_thres_min P → clamp P v = clamping_thres_min P.
Proof.
  intros H Hv. unfold clamp.
  destruct (v <? clamping_thres_min P) eqn:E1; [done|].
  destruct (clamping_thres_max P <? v) eqn:E2; lia.
Qed.

Lemma fold_write_within (d : OcTreeParams → Z) (t : OcTree) (S : KeySet) :
  clamping_thres_min (params t) ≤ clamping_thres_max (params t) →
  within_clamp t → within_clamp (set_fold (write d) t S).
Proof.
  intros Hmm Hw k v.
  destruct (fold_write_spec d t S) as [Hp _ Hn _].
  rewrite Hn, Hp. destruct (decide (k ∈ S)).
  - intros [= <-]. by apply clamp_range.
  - apply Hw.
Qed.

Lemma commit_tree_within (lg : Z) (t : OcTree) (c : Cells) :
  clamping_thres_min (params t) ≤ clamping_thres_max (params t) →
  within_clamp t → within_clamp (commit_tree lg t c).
Proof.
  intros Hmm Hw. unfold commit_tree.
  apply fold_write_within;
    [by rewrite !(ws_params _ _ _ _ (fold_write_spec _ _ _))|].
  apply fold_write_within;
    [by rewrite !(ws_params _ _ _ _ (fold_write_spec _ _ _))|].
  by apply fold_write_within.
Qed.

(** A model cell ends at the lower clamping threshold when the increment of
    the last loop is [min - max]. *)
Lemma commit_tree_model (t : OcTree) (c : Cells) (k : OcTreeKey) :
  params_ok (params t) → within_clamp t →
  k ∈ model_cells c →
  nodes (commit_tree
           (clamping_thres_min (params t) - clamping_thres_max (params t))
           t c) !! k
  = Some (clamping_thres_min (params t)).
Proof.
  intros (Hmm & H0 & _) Hw Hk. unfold commit_tree.
  set (t1 := set_fold (write (bool_increment false)) t (free_cells c)).
  set (t2 := set_fold (write (bool_increment true)) t1 (occupied_cells c)).
  assert (Hp1 : params t1 = params t)
    by apply (ws_params _ _ _ _ (fold_write_spec _ _ _)).
  assert (Hp2 : params t2 = params t).
  { unfold t2. by rewrite (ws_params _ _ _ _ (fold_write_spec _ _ _)). }
  assert (Hw2 : within_clamp t2).
  { apply fold_write_within; [by rewrite Hp1|].
    by apply fold_write_within. }
  rewrite (ws_nodes _ _ _ _ (fold_write_spec _ t2 _)).
  rewrite decide_True by done. f_equal. unfold written. rewrite Hp2.
  apply clamp_low; [done|].
  destruct (nodes t2 !! k) as [v|] eqn:Hv; simpl.
  - apply Hw2 in Hv. rewrite Hp2 in Hv. lia.
  - lia.
Qed.

(** ** The frame, step by step *)

Lemma trackChanges_changed (u : Updater) :
  changed_cell_ (trackChanges u) = dom (changed_keys (frontier_tree_ u)).
Proof. unfold trackChanges; simpl. apply fold_map_keys. Qed.

Lemma elem_of_findFrontier (u : Updater) (k : OcTreeKey) :
  k ∈ findFrontier u ↔ k ∈ changed_cell_ u ∧ is_new_frontier u k = true.
Proof.
  unfold findFrontier. destruct (decide (size (changed_cell_ u) = 0%nat)) as [H|H].
  - apply size_empty_inv in H. apply leibniz_equiv in H. rewrite H.
    set_solver.
  - apply elem_of_fold_filter.
Qed.

Lemma elem_of_deleteSet (u : Updater) (k : OcTreeKey) :
  k ∈ deleteSet u ↔ k ∈ frontier_cell_ u ∧ is_deleted u k = true.
Proof. apply elem_of_fold_filter. Qed.

Lemma mergeFrontier_frontier_cell (u : Updater) (newFrontier : KeySet) :
  frontier_cell_ (mergeFrontier u newFrontier)
  = newFrontier ∪ (frontier_cell_ u ∖ deleteSet u).
Proof.
  unfold mergeFrontier; simpl. rewrite fold_insert_keys.
  f_equal. apply erase_all_difference.
Qed.

Section Frame.

Variable computeRayKeys : OcTree → point3d → point3d → option (list OcTreeKey).

Lemma process_cloud_tree (u : Updater) (origin : point3d)
    (ps : list CloudPoint) :
  tree_ (process_cloud computeRayKeys u origin ps)
  = commit_tree (model_increment (tree_ u)) (tree_ u)
      (frame_cells computeRayKeys (tree_ u) origin ps).
Proof. unfold process_cloud. rewrite commit_split. reflexivity. Qed.

Lemma process_cloud_frontier_tree (u : Updater) (origin : point3d)
    (ps : list CloudPoint) :
  frontier_tree_ (process_cloud computeRayKeys u origin ps)
  = resetChangeDetection
      (enableChangeDetection
         (commit_tree (model_increment (tree_ u)) (frontier_tree_ u)
            (frame_cells computeRayKeys (tree_ u) origin ps)) true).
Proof. unfold process_cloud. rewrite commit_split. reflexivity. Qed.

Lemma process_cloud_changed (u : Updater) (origin : point3d)
    (ps : list CloudPoint) :
  changed_cell_ (process_cloud computeRayKeys u origin ps)
  = dom (changed_keys
           (commit_tree (model_increment (tree_ u)) (frontier_tree_ u)
              (frame_cells computeRayKeys (tree_ u) origin ps))).
Proof.
  unfold process_cloud. rewrite commit_split. simpl. apply fold_map_keys.
Qed.

End Frame.

(** ** The frontier predicate *)

Lemma is_new_frontier_eq (u : Updater) (k : OcTreeKey) :
  is_new_frontier u k
  = negb (outside_box u (keyToCoord (params (frontier_tree_ u)) k))
    && is_frontier (frontier_tree_ u) k.
Proof.
  unfold is_new_frontier, is_frontier.
  destruct (outside_box _ _); [done|]. simpl.
  destruct (search _ _) as [v|]; [|done].
  by destruct (isNodeOccupied _ _).
Qed.

Lemma is_deleted_eq (u : Updater) (k : OcTreeKey) :
  is_deleted u k
  = match search (frontier_tree_ u) k with
    | None => false
    | Some _ => negb (is_frontier (frontier_tree_ u) k)
    end.
Proof.
  unfold is_deleted, is_frontier.
  destruct (search _ _) as [v|]; [|done].
  by destruct (isNodeOccupied _ _).
Qed.

Lemma Qlt_bool_false (a b : Q) : Qlt_bool a b = false → (b <= a)%Q.
Proof.
  unfold Qlt_bool. intros H. apply Qle_bool_iff.
  by destruct (Qle_bool b a).
Qed.

Lemma outside_box_false (u : Updater) (p : point3d) :
  outside_box u p = false → inside_box u p.
Proof.
  unfold outside_box, inside_box. intros H.
  repeat (apply orb_false_iff in H; destruct H as [H ?]).
  repeat split; by apply Qlt_bool_false.
Qed.

(** ** Claims on the frontier *)

(** C1 (the code departs from the claim).  The loops of [findFrontier] and
    [mergeFrontier] announce "26 neighbours" but skip an offset as soon as
    one of its components is zero, so they enumerate the 8 corner offsets
    only: an enumerated offset is one of the 26 whose three components are
    all nonzero.  On [face_updater] the changed cell is free, has a free
    face neighbour and unknown neighbours, raises both flags over the 26
    offsets, and yet is not returned by [findFrontier]; as the member of a
    persistent frontier set it is deleted by [mergeFrontier]. *)
Theorem neighbor_offsets_corners_only :
  length neighbor_offsets = 8%nat ∧
  length spec_neighbor_offsets = 26%nat ∧
  (∀ o, o ∈ neighbor_offsets ↔
        o ∈ spec_neighbor_offsets ∧ o.1.1 ≠ 0 ∧ o.1.2 ≠ 0 ∧ o.2 ≠ 0) ∧
  (1, 0, 0) ∈ spec_neighbor_offsets ∧ ((1, 0, 0) ∉ neighbor_offsets) ∧
  (let t := Examples.face_tree in
   let k := Examples.K 0 0 0 in
   neighbor_flags t
     ((λ o, keyToCoord (params t) (neighbor_key k o))
        <$> spec_neighbor_offsets) = (true, true) ∧
   neighbor_flags t (cellNeighbor t k) = (true, false) ∧
   findFrontier Examples.face_updater = ∅ ∧
   frontier_cell_ (mergeFrontier Examples.face_member_updater ∅) = ∅).
Proof.
  split; [reflexivity|]. split; [reflexivity|].
  split.
  { intros [[x y] z]. simpl.
    assert (Hc : neighbor_offsets =
                 [(-1,-1,-1); (-1,-1,1); (-1,1,-1); (-1,1,1);
                  (1,-1,-1); (1,-1,1); (1,1,-1); (1,1,1)]) by reflexivity.
    assert (Hs : ∀ o, o ∈ spec_neighbor_offsets ↔
                 (o.1.1 = -1 ∨ o.1.1 = 0 ∨ o.1.1 = 1) ∧
                 (o.1.2 = -1 ∨ o.1.2 = 0 ∨ o.1.2 = 1) ∧
                 (o.2 = -1 ∨ o.2 = 0 ∨ o.2 = 1) ∧
                 ¬ (o.1.1 = 0 ∧ o.1.2 = 0 ∧ o.2 = 0)).
    { intros [[a b] c]. simpl. split.
      - intros H. vm_compute in H.
        repeat (apply elem_of_cons in H; destruct H as [[= -> -> ->]|H];
                [lia|]).
        by apply elem_of_nil in H.
      - intros (Ha & Hb & Hc' & Hn).
        destruct Ha as [-> | [-> | ->]], Hb as [-> | [-> | ->]],
                 Hc' as [-> | [-> | ->]];
          try (exfalso; apply Hn; done);
          vm_compute; repeat (first [apply list_elem_of_here
                                    |apply list_elem_of_further]). }
    rewrite Hs, Hc. simpl. split.
    - intros H.
      repeat (apply elem_of_cons in H; destruct H as [[= -> -> ->]|H];
              [lia|]).
      by apply elem_of_nil in H.
    - intros ((Ha & Hb & Hc' & _) & Hx & Hy & Hz).
      destruct Ha as [-> | [-> | ->]], Hb as [-> | [-> | ->]],
               Hc' as [-> | [-> | ->]]; try done;
        repeat (first [apply list_elem_of_here|apply list_elem_of_further]). }
  split.
  { vm_compute. repeat (first [apply list_elem_of_here
                              |apply list_elem_of_further]). }
  split.
  { intros H. vm_compute in H.
    repeat (apply elem_of_cons in H; destruct H as [[=]|H]).
    by apply elem_of_nil in H. }
  split; [by vm_compute|]. split; [by vm_compute|].
  split.
  - apply set_eq. intros k. rewrite elem_of_findFrontier.
    split; [|set_solver].
    intros [Hk Hf]. simpl in Hk. apply elem_of_singleton in Hk. subst k.
    by vm_compute in Hf.
  - rewrite mergeFrontier_frontier_cell. apply set_eq. intros k.
    split; [|set_solver].
    intros [Hk|[Hk Hd]%elem_of_difference]%elem_of_union; [set_solver|].
    exfalso. apply Hd. apply elem_of_deleteSet. split; [exact Hk|].
    simpl in Hk. apply elem_of_singleton in Hk. subst k. by vm_compute.
Qed.

Lemma is_new_frontier_true (u : Updater) (k : OcTreeKey) :
  is_new_frontier u k = true →
  (∃ v, search (frontier_tree_ u) k = Some v ∧
        isNodeOccupied (frontier_tree_ u) v = false) ∧
  inside_box u (keyToCoord (params (frontier_tree_ u)) k).
Proof.
  unfold is_new_frontier. intros Hf.
  destruct (outside_box _ _) eqn:Hbox; [done|].
  destruct (search _ _) as [v|] eqn:Hs; [|done].
  destruct (isNodeOccupied _ _) eqn:Ho; [done|].
  split; [by exists v|]. by apply outside_box_false.
Qed.

(** C4.  Every key returned by [findFrontier] belongs to the change set,
    has a node in the map that is not occupied, and has its voxel centre
    inside the bounding volume. *)
Theorem findFrontier_sound (u : Updater) (k : OcTreeKey) :
  k ∈ findFrontier u →
  k ∈ changed_cell_ u ∧
  (∃ v, search (frontier_tree_ u) k = Some v ∧
        isNodeOccupied (frontier_tree_ u) v = false) ∧
  inside_box u (keyToCoord (params (frontier_tree_ u)) k).
Proof.
  rewrite elem_of_findFrontier. intros [Hk Hf]. split; [exact Hk|].
  by apply is_new_frontier_true.
Qed.

Lemma findFrontier_sound_witness :
  Examples.K 0 0 0 ∈ findFrontier Examples.corner_updater ∧
  Examples.K 0 0 0 ∈ changed_cell_ Examples.corner_updater ∧
  (∃ v, search Examples.corner_tree (Examples.K 0 0 0) = Some v ∧
        isNodeOccupied Examples.corner_tree v = false) ∧
  inside_box Examples.corner_updater
    (keyToCoord Examples.P0 (Examples.K 0 0 0)).
Proof.
  assert (H : Examples.K 0 0 0 ∈ findFrontier Examples.corner_updater).
  { apply elem_of_findFrontier. split; [|by vm_compute].
    simpl. apply elem_of_singleton. reflexivity. }
  split; [exact H|].
  exact (findFrontier_sound Examples.corner_updater (Examples.K 0 0 0) H).
Defined.

(** With the test the code evaluates, over the 8 enumerated neighbours:
    when the candidate set is empty and every member of the persistent
    frontier set passes it, [mergeFrontier] leaves the updater as it
    was. *)
Lemma mergeFrontier_idempotent (u : Updater) :
  (∀ k, k ∈ frontier_cell_ u → is_frontier (frontier_tree_ u) k = true) →
  mergeFrontier u ∅ = u ∧
  frontier_cell_ (mergeFrontier u ∅) = frontier_cell_ u.
Proof.
  intros H.
  assert (Hf : frontier_cell_ (mergeFrontier u ∅) = frontier_cell_ u).
  { rewrite mergeFrontier_frontier_cell.
    assert (Hd : deleteSet u = ∅).
    { apply set_eq. intros k. rewrite elem_of_deleteSet, is_deleted_eq.
      split; [|set_solver]. intros [Hk Hdel]. rewrite (H k Hk) in Hdel.
      by destruct (search _ _). }
    rewrite Hd. set_solver. }
  split; [|exact Hf].
  unfold mergeFrontier in *. simpl in Hf. rewrite Hf. by destruct u.
Qed.

Lemma mergeFrontier_idempotent_witness :
  frontier_cell_ Examples.corner_updater = {[Examples.K 0 0 0]} ∧
  mergeFrontier Examples.corner_updater ∅ = Examples.corner_updater.
Proof.
  split; [reflexivity|].
  apply (mergeFrontier_idempotent Examples.corner_updater).
  intros k Hk. simpl in Hk. apply elem_of_singleton in Hk. subst k.
  by vm_compute.
Defined.


(** C10.  In the re-validation loop of [mergeFrontier] a member of the
    persistent set without a node in the map is not put into [deleteSet]
    and stays in the persistent set, whatever the candidates; a member
    whose node is occupied is put into [deleteSet], survives only if the
    candidate set brings it back, and is gone after the merge with the
    candidates of [findFrontier], which never contain it. *)
Theorem mergeFrontier_unknown_kept_occupied_removed
    (u : Updater) (newFrontier : KeySet) (k : OcTreeKey) :
  k ∈ frontier_cell_ u →
  (search (frontier_tree_ u) k = None →
   (k ∉ deleteSet u) ∧ k ∈ frontier_cell_ (mergeFrontier u newFrontier)) ∧
  (∀ v, search (frontier_tree_ u) k = Some v →
        isNodeOccupied (frontier_tree_ u) v = true →
        k ∈ deleteSet u ∧
        (k ∈ frontier_cell_ (mergeFrontier u newFrontier) ↔ k ∈ newFrontier) ∧
        k ∉ frontier_cell_ (mergeFrontier u (findFrontier u))).
Proof.
  intros Hk. split.
  - intros Hs.
    assert (Hd : k ∉ deleteSet u).
    { rewrite elem_of_deleteSet. unfold is_deleted. rewrite Hs.
      by intros [_ ?]. }
    split; [exact Hd|]. rewrite mergeFrontier_frontier_cell. set_solver.
  - intros v Hs Ho.
    assert (Hd : k ∈ deleteSet u).
    { rewrite elem_of_deleteSet. unfold is_deleted. rewrite Hs, Ho. done. }
    split; [exact Hd|]. split.
    + rewrite mergeFrontier_frontier_cell. set_solver.
    + rewrite mergeFrontier_frontier_cell.
      intros [Hin|Hin]%elem_of_union; [|set_solver].
      apply elem_of_findFrontier in Hin. destruct Hin as [_ Hin].
      apply is_new_frontier_true in Hin.
      destruct Hin as [(v' & Hs' & Ho') _]. congruence.
Qed.

Lemma mergeFrontier_unknown_kept_occupied_removed_witness :
  let u := Examples.stale_updater in
  Examples.K 9 9 9 ∈ frontier_cell_ (mergeFrontier u ∅) ∧
  Examples.K 5 5 5 ∉ frontier_cell_ (mergeFrontier u (findFrontier u)).
Proof.
  intros u.
  assert (H9 : Examples.K 9 9 9 ∈ frontier_cell_ u).
  { simpl. apply elem_of_union_r, elem_of_singleton. reflexivity. }
  assert (H5 : Examples.K 5 5 5 ∈ frontier_cell_ u).
  { simpl. apply elem_of_union_l, elem_of_singleton. reflexivity. }
  split.
  - destruct (mergeFrontier_unknown_kept_occupied_removed u ∅ _ H9)
      as [Hn _].
    apply Hn. reflexivity.
  - destruct (mergeFrontier_unknown_kept_occupied_removed u ∅ _ H5)
      as [_ Ho].
    apply (Ho 100); reflexivity.
Defined.

(** ** Claims on the frame *)

Lemma Qlt_bool_true (a b : Q) : (a < b)%Q → Qlt_bool a b = true.
Proof.
  intros H. unfold Qlt_bool. destruct (Qle_bool b a) eqn:E; [|done].
  apply Qle_bool_iff in E. by apply Qle_not_lt in E.
Qed.

Lemma bucket_free_empty (t : OcTree) (ps : list CloudPoint) :
  free_cells (bucket t ps) = ∅.
Proof.
  unfold bucket.
  assert (H : ∀ c, free_cells (foldl (bucket_point t) c ps) = free_cells c).
  { induction ps as [|p ps IH]; intros c; [done|]. simpl. rewrite IH.
    unfold bucket_point. destruct (pt_nan p); [done|].
    by destruct (pt_mask p). }
  by rewrite H.
Qed.

Section FrameClaims.

Variable computeRayKeys : OcTree → point3d → point3d → option (list OcTreeKey).

Lemma elem_of_trace_rays (t : OcTree) (origin : point3d)
    (ends free : KeySet) (k : OcTreeKey) :
  k ∈ trace_rays computeRayKeys t origin ends free ↔
  k ∈ free ∨
  ∃ e key_ray, e ∈ ends ∧
    computeRayKeys t origin (keyToCoord (params t) e) = Some key_ray ∧
    k ∈ key_ray.
Proof.
  unfold trace_rays.
  apply (set_fold_ind_L (λ r Y, k ∈ r ↔ k ∈ free ∨
           ∃ e key_ray, e ∈ Y ∧
             computeRayKeys t origin (keyToCoord (params t) e) = Some key_ray ∧
             k ∈ key_ray)).
  - split; [by left|]. intros [?|(e & ? & ? & _)]; [done|set_solver].
  - intros x Y r Hx IH.
    destruct (computeRayKeys t origin (keyToCoord (params t) x))
      as [ray|] eqn:Hray.
    + rewrite elem_of_union, elem_of_list_to_set, IH. split.
      * intros [Hk|[Hk|(e & kr & He & Hr & Hk)]].
        -- right. exists x, ray. set_solver.
        -- by left.
        -- right. exists e, kr. set_solver.
      * intros [Hk|(e & kr & He & Hr & Hk)]; [by right; left|].
        apply elem_of_union in He. destruct He as [He|He].
        -- apply elem_of_singleton in He. subst e.
           left. congruence.
        -- right; right. by exists e, kr.
    + rewrite IH. split.
      * intros [Hk|(e & kr & He & Hr & Hk)]; [by left|].
        right. exists e, kr. set_solver.
      * intros [Hk|(e & kr & He & Hr & Hk)]; [by left|].
        apply elem_of_union in He. destruct He as [He|He].
        -- apply elem_of_singleton in He. subst e. congruence.
        -- right. by exists e, kr.
Qed.

(** C7.  With a positive [max_update_rate_], a frame whose arrival time is
    no more than [1 / max_update_rate_] after [last_update_time_] (so in
    particular one that arrives before that interval has elapsed) leaves
    the whole state of the updater as it was: time stamp, map frame, both
    trees, change set and frontier set. *)
Theorem rate_limited_frame_dropped (u : Updater) (m : CloudMsg) :
  (0 < max_update_rate_ u)%Q →
  (now m - last_update_time_ u <= 1 / max_update_rate_ u)%Q →
  cloudMsgCallback computeRayKeys u m = u.
Proof.
  intros Hrate Hearly. unfold cloudMsgCallback, rate_limited.
  rewrite (Qlt_bool_true _ _ Hrate).
  apply Qle_bool_iff in Hearly. by rewrite Hearly.
Qed.

(** C8.  The free set after the three ray loops is the fold of the occupied
    endpoints, then of the model endpoints, then of the clip endpoints; a
    key is in it exactly when it was in the free set before (which is empty
    for the sets bucketed from a cloud) or lies on the key ray of an
    endpoint of one of the three sets whose traversal succeeded.  An
    endpoint whose traversal fails adds nothing and does not stop the
    others. *)
Theorem compute_free_successful_rays (t : OcTree) (origin : point3d)
    (c : Cells) (ps : list CloudPoint) (k : OcTreeKey) :
  free_cells (compute_free computeRayKeys t origin c)
  = trace_rays computeRayKeys t origin (clip_cells c)
      (trace_rays computeRayKeys t origin (model_cells c)
         (trace_rays computeRayKeys t origin (occupied_cells c)
            (free_cells c))) ∧
  (k ∈ free_cells (compute_free computeRayKeys t origin c) ↔
   k ∈ free_cells c ∨
   ∃ e key_ray,
     (e ∈ occupied_cells c ∨ e ∈ model_cells c ∨ e ∈ clip_cells c) ∧
     computeRayKeys t origin (keyToCoord (params t) e) = Some key_ray ∧
     k ∈ key_ray) ∧
  free_cells (bucket t ps) = ∅ ∧
  occupied_cells (compute_free computeRayKeys t origin c) = occupied_cells c ∧
  model_cells (compute_free computeRayKeys t origin c) = model_cells c ∧
  clip_cells (compute_free computeRayKeys t origin c) = clip_cells c.
Proof.
  split; [reflexivity|]. split; [|by split; [apply bucket_free_empty|]].
  simpl. rewrite !elem_of_trace_rays. split.
  - intros [[[?|(e & kr & ? & ? & ?)]|(e & kr & ? & ? & ?)]
           |(e & kr & ? & ? & ?)]; [by left|right; exists e, kr; tauto..].
  - intros [?|(e & kr & [?|[?|?]] & ? & ?)].
    + by left; left; left.
    + left; left; right. by exists e, kr.
    + left; right. by exists e, kr.
    + right. by exists e, kr.
Qed.

End FrameClaims.

Lemma rate_limited_frame_dropped_witness :
  let u := Updater_mk 10 (5 # 1) EmptyString Examples.face_tree
             Examples.face_tree ∅ ∅ (-10) 10 (-10) 10 (-10) 10 in
  let m := Build_CloudMsg (101 # 20) EmptyString None true
             [Build_CloudPoint false (point3d_mk (3 # 20) (1 # 20) (1 # 20))
                               OUTSIDE] in
  cloudMsgCallback Examples.axis_ray u m = u.
Proof.
  intros u m. apply (rate_limited_frame_dropped Examples.axis_ray u m).
  - reflexivity.
  - by vm_compute.
Defined.

(** ** The commit as a sequence of updates *)

Lemma set_fold_visit {A : Type} (f : OcTreeKey → A → A) (a : A) (S : KeySet) :
  set_fold f a S = foldl (λ acc k, f k acc) a (visit_order S).
Proof.
  unfold set_fold, visit_order; simpl.
  induction (elements S) as [|x l IH]; [done|].
  rewrite reverse_cons, foldl_app. simpl. by rewrite <- IH.
Qed.

Lemma foldl_apply_update (g : OcTreeKey → Update) (t : OcTree)
    (l : list OcTreeKey) :
  foldl apply_update t (g <$> l) = foldl (λ acc k, apply_update acc (g k)) t l.
Proof. revert t. induction l as [|x l IH]; intros t; [done|]. apply IH. Qed.

Lemma commit_tree_updates (lg : Z) (t : OcTree) (c : Cells) :
  commit_tree lg t c = foldl apply_update t (commit_updates lg c).
Proof.
  unfold commit_tree, commit_updates.
  rewrite !foldl_app, !foldl_apply_update, !set_fold_visit. reflexivity.
Qed.

Lemma elem_of_visit_order (S : KeySet) (k : OcTreeKey) :
  k ∈ visit_order S ↔ k ∈ S.
Proof. unfold visit_order. by rewrite elem_of_reverse, elem_of_elements. Qed.

Lemma free_update_in_commit (lg : Z) (c : Cells) (k : OcTreeKey) :
  UpdateBool k false ∈ commit_updates lg c ↔ k ∈ free_cells c.
Proof.
  unfold commit_updates. rewrite !elem_of_app, !list_elem_of_fmap.
  setoid_rewrite elem_of_visit_order. split.
  - intros [(y & [= ->] & Hy)|[(y & [=] & _)|(y & [=] & _)]]. exact Hy.
  - intros Hk. left. by exists k.
Qed.

Lemma reconcile_sets (c : Cells) :
  occupied_cells (reconcile c) = occupied_cells c ∖ model_cells c ∧
  free_cells (reconcile c)
  = free_cells c ∖ (occupied_cells c ∖ model_cells c) ∧
  model_cells (reconcile c) = model_cells c ∧
  clip_cells (reconcile c) = clip_cells c.
Proof.
  unfold reconcile; simpl. by rewrite !erase_all_difference.
Qed.

(** C3 (as amended).  Reconciliation removes every model key from the
    occupied set and then every remaining occupied key from the free set,
    so the free and occupied sets are disjoint at commit time: a key that
    is in the occupied set at commit time, that is a key observed occupied
    in the frame that is not also a model key, receives no
    [updateNode(key, false)] in the commit. *)
Theorem reconcile_free_occupied_disjoint (c : Cells) (lg : Z) :
  occupied_cells (reconcile c) = occupied_cells c ∖ model_cells c ∧
  free_cells (reconcile c) = free_cells c ∖ occupied_cells (reconcile c) ∧
  free_cells (reconcile c) ## occupied_cells (reconcile c) ∧
  (∀ k, k ∈ occupied_cells (reconcile c) →
        UpdateBool k false ∉ commit_updates lg (reconcile c)) ∧
  (∀ k, k ∈ occupied_cells c → k ∉ model_cells c →
        UpdateBool k false ∉ commit_updates lg (reconcile c)).
Proof.
  destruct (reconcile_sets c) as (Ho & Hf & _ & _).
  split; [exact Ho|]. split; [by rewrite Hf, Ho|].
  split; [rewrite Hf, Ho; set_solver|].
  split.
  - intros k Hk. rewrite free_update_in_commit, Hf. rewrite Ho in Hk.
    set_solver.
  - intros k Hk Hm. rewrite free_update_in_commit, Hf. set_solver.
Qed.

(** C3 (counterexample to the claim as worded).  The sensor sits in the
    cell [K 0 0 0]; the cloud has an OUTSIDE point and an INSIDE point in
    the cell [K 1 0 0] and an OUTSIDE point in the cell [K 2 0 0].  The key
    [K 1 0 0] is observed occupied, lies on the ray to [K 2 0 0], loses its
    place in the occupied set to the model set, and so receives
    [updateNode(key, false)] in the commit of that frame. *)
Lemma observed_occupied_receives_free_update :
  let t := OcTree_mk Examples.P0 ∅ false ∅ in
  let origin := point3d_mk (1 # 20) (1 # 20) (1 # 20) in
  let ps := Examples.overlap_cloud in
  Examples.K 1 0 0 ∈ occupied_cells (bucket t ps) ∧
  Examples.K 1 0 0 ∈ model_cells (bucket t ps) ∧
  UpdateBool (Examples.K 1 0 0) false
    ∈ commit_updates (model_increment t)
        (frame_cells Examples.axis_ray t origin ps).
Proof.
  intros t origin ps. rewrite free_update_in_commit.
  repeat split; apply (bool_decide_unpack _); by vm_compute.
Qed.

Section TwoTrees.

Variable computeRayKeys : OcTree → point3d → point3d → option (list OcTreeKey).

Lemma process_cloud_same_map (u : Updater) (origin : point3d)
    (ps : list CloudPoint) :
  same_map (tree_ u) (frontier_tree_ u) →
  same_map (tree_ (process_cloud computeRayKeys u origin ps))
           (frontier_tree_ (process_cloud computeRayKeys u origin ps)).
Proof.
  intros [Hp Hn].
  rewrite process_cloud_tree, process_cloud_frontier_tree. split; simpl.
  - by rewrite !commit_tree_params.
  - by apply commit_tree_same_map.
Qed.

Lemma cloudMsgCallback_same_map (u : Updater) (m : CloudMsg) :
  same_map (tree_ u) (frontier_tree_ u) →
  same_map (tree_ (cloudMsgCallback computeRayKeys u m))
           (frontier_tree_ (cloudMsgCallback computeRayKeys u m)).
Proof.
  intros H. unfold cloudMsgCallback.
  destruct (rate_limited u m); [exact H|].
  set (u1 := if Qlt_bool 0 (max_update_rate_ u)
             then set_last_update_time u (now m) else u).
  assert (H1 : same_map (tree_ u1) (frontier_tree_ u1)).
  { unfold u1. by destruct (Qlt_bool _ _). }
  set (u2 := if decide (map_frame_ u1 = EmptyString)
             then set_map_frame u1 (frame_id m) else u1).
  assert (H2 : same_map (tree_ u2) (frontier_tree_ u2)).
  { unfold u2. by destruct (decide _). }
  destruct (sensor_origin u2 m); [|exact H2].
  destruct (transform_cache_ok m); [|exact H2].
  by apply process_cloud_same_map.
Qed.

(** C9.  In the commit every call made on [tree_] is made on
    [frontier_tree_] with the same key and the same argument: both trees
    go through the one sequence [commit_updates].  Hence two trees that
    start with equal parameters and equal stored values have equal
    parameters and equal stored values after any sequence of frames. *)
Theorem two_trees_stay_equal (u : Updater) (ms : list CloudMsg) :
  same_map (tree_ u) (frontier_tree_ u) →
  (∀ c, commit (tree_ u, frontier_tree_ u) c
        = (foldl apply_update (tree_ u)
             (commit_updates (model_increment (tree_ u)) c),
           foldl apply_update (frontier_tree_ u)
             (commit_updates (model_increment (tree_ u)) c))) ∧
  same_map (tree_ (foldl (cloudMsgCallback computeRayKeys) u ms))
           (frontier_tree_ (foldl (cloudMsgCallback computeRayKeys) u ms)).
Proof.
  intros H. split.
  - intros c. rewrite commit_split. simpl. by rewrite !commit_tree_updates.
  - revert u H. induction ms as [|m ms IH]; intros u H; [exact H|].
    simpl. apply IH. by apply cloudMsgCallback_same_map.
Qed.

End TwoTrees.

Lemma two_trees_stay_equal_witness :
  let u := Examples.fresh_updater in
  let ms := [Examples.overlap_msg; Examples.overlap_msg] in
  same_map (tree_ u) (frontier_tree_ u) ∧
  same_map (tree_ (foldl (cloudMsgCallback Examples.axis_ray) u ms))
           (frontier_tree_ (foldl (cloudMsgCallback Examples.axis_ray) u ms)).
Proof.
  intros u ms. split; [by split|].
  apply (two_trees_stay_equal Examples.axis_ray u ms). by split.
Defined.

(** ** Claims on the commit and the change set *)

Lemma elem_of_bucket (t : OcTree) (ps : list CloudPoint) (k : OcTreeKey) :
  let hit (l : ShapeMaskLabel) :=
    ∃ p, p ∈ ps ∧ pt_nan p = false ∧ pt_mask p = l ∧
         coordToKey (params t) (pt_map p) = k in
  (k ∈ model_cells (bucket t ps) ↔ hit INSIDE) ∧
  (k ∈ clip_cells (bucket t ps) ↔ hit CLIP) ∧
  (k ∈ occupied_cells (bucket t ps) ↔ hit OUTSIDE).
Proof.
  intros hit. unfold bucket.
  assert (H : ∀ c,
    let hit' (l : ShapeMaskLabel) :=
      ∃ p, p ∈ ps ∧ pt_nan p = false ∧ pt_mask p = l ∧
           coordToKey (params t) (pt_map p) = k in
    (k ∈ model_cells (foldl (bucket_point t) c ps)
       ↔ k ∈ model_cells c ∨ hit' INSIDE) ∧
    (k ∈ clip_cells (foldl (bucket_point t) c ps)
       ↔ k ∈ clip_cells c ∨ hit' CLIP) ∧
    (k ∈ occupied_cells (foldl (bucket_point t) c ps)
       ↔ k ∈ occupied_cells c ∨ hit' OUTSIDE)).
  { clear hit. induction ps as [|p ps IH]; intros c; simpl.
    - repeat split; try (by left);
        (intros [?|(p & Hp & _)]; [done|by apply elem_of_nil in Hp]).
    - destruct (IH (bucket_point t c p)) as (Hm & Hc & Ho).
      rewrite Hm, Hc, Ho. clear IH Hm Hc Ho.
      setoid_rewrite elem_of_cons.
      unfold bucket_point.
      destruct (pt_nan p) eqn:Hn.
      { split_and!; (split; (intros [?|(q & Hq & Hnq & Hlq & Hkq)]; [by left| ]));
        first [ right; exists q; by auto
              | destruct Hq as [->|Hq]; [congruence|right; by exists q] ]. }
      destruct (pt_mask p) eqn:Hl; simpl;
        rewrite ?elem_of_union, ?elem_of_singleton;
        split_and!; split; intros H; destruct_or?;
        try (destruct H as (q & Hq & Hnq & Hlq & Hkq); destruct_or?; subst);
        first [ congruence
              | by left
              | by (right; eauto 10)
              | by (left; left)
              | by (left; right) ]. }
  destruct (H (Cells_mk ∅ ∅ ∅ ∅)) as (Hm & Hc & Ho).
  rewrite Hm, Hc, Ho. simpl. unfold hit. set_solver.
Qed.

Section CommitClaims.

Variable computeRayKeys : OcTree → point3d → point3d → option (list OcTreeKey).

Lemma frame_cells_model (t : OcTree) (origin : point3d)
    (ps : list CloudPoint) :
  model_cells (frame_cells computeRayKeys t origin ps)
  = model_cells (bucket t ps).
Proof. reflexivity. Qed.

(** The clamping invariant is kept by a frame, on both trees. *)
Lemma process_cloud_within (u : Updater) (origin : point3d)
    (ps : list CloudPoint) :
  params_ok (params (tree_ u)) →
  params (frontier_tree_ u) = params (tree_ u) →
  within_clamp (tree_ u) → within_clamp (frontier_tree_ u) →
  within_clamp (tree_ (process_cloud computeRayKeys u origin ps)) ∧
  within_clamp (frontier_tree_ (process_cloud computeRayKeys u origin ps)).
Proof.
  intros (Hmm & _) Hp Hw Hwf.
  rewrite process_cloud_tree, process_cloud_frontier_tree. split.
  - by apply commit_tree_within.
  - intros k v. simpl. apply commit_tree_within; [by rewrite Hp|done].
Qed.

(** C2.  When a key is in the model set and in the occupied set bucketed
    from the cloud of a frame, then after the frame its stored log-odds is
    the lower clamping threshold, and that value is not occupied, in
    [tree_] and in [frontier_tree_].  The trees are assumed to satisfy the
    invariant of the occupancy map (stored values within the clamping
    interval) with thresholds in their natural order, and to share their
    parameters. *)
Theorem model_cell_ends_at_min (u : Updater) (origin : point3d)
    (ps : list CloudPoint) (X : OcTreeKey) :
  params_ok (params (tree_ u)) →
  params (frontier_tree_ u) = params (tree_ u) →
  within_clamp (tree_ u) → within_clamp (frontier_tree_ u) →
  X ∈ model_cells (bucket (tree_ u) ps) →
  X ∈ occupied_cells (bucket (tree_ u) ps) →
  let u' := process_cloud computeRayKeys u origin ps in
  let minLog := clamping_thres_min (params (tree_ u)) in
  search (tree_ u') X = Some minLog ∧
  isNodeOccupied (tree_ u') minLog = false ∧
  search (frontier_tree_ u') X = Some minLog ∧
  isNodeOccupied (frontier_tree_ u') minLog = false.
Proof.
  intros Hok Hp Hw Hwf Hm _ u' minLog. unfold u', minLog, search.
  rewrite process_cloud_tree, process_cloud_frontier_tree.
  unfold isNodeOccupied; simpl. rewrite !commit_tree_params.
  assert (Hthr : (occ_prob_thres_log (params (tree_ u))
                  <? clamping_thres_min (params (tree_ u))) = false).
  { destruct Hok as (_ & _ & Ho). apply Z.ltb_ge. exact Ho. }
  split; [by apply commit_tree_model|]. split; [exact Hthr|].
  split; [|by rewrite Hp].
  unfold model_increment. rewrite <- Hp.
  apply commit_tree_model; [by rewrite Hp|done|exact Hm].
Qed.

End CommitClaims.

Lemma model_cell_ends_at_min_witness :
  let u := Examples.fresh_updater in
  let origin := point3d_mk (1 # 20) (1 # 20) (1 # 20) in
  let u' := process_cloud Examples.axis_ray u origin Examples.overlap_cloud in
  search (tree_ u') (Examples.K 1 0 0) = Some (-200) ∧
  isNodeOccupied (tree_ u') (-200) = false ∧
  search (frontier_tree_ u') (Examples.K 1 0 0) = Some (-200) ∧
  isNodeOccupied (frontier_tree_ u') (-200) = false.
Proof.
  intros u origin.
  apply (model_cell_ends_at_min Examples.axis_ray u origin
           Examples.overlap_cloud (Examples.K 1 0 0)).
  - unfold params_ok; simpl. lia.
  - reflexivity.
  - intros k v H. simpl in H. by rewrite lookup_empty in H.
  - intros k v H. simpl in H. by rewrite lookup_empty in H.
  - apply (bool_decide_unpack _). by vm_compute.
  - apply (bool_decide_unpack _). by vm_compute.
Defined.

(** C5 (counterexample to the claim as worded).  The frontier tree is armed,
    has no recorded key pending, and holds the free cells [K 0 0 0] and
    [K 1 0 0].  The frame of [overlap_msg] lowers the stored value of
    [K 0 0 0] from -40 to -80; the cell existed and stays not occupied, so
    the key is not in the drained change set. *)
Lemma value_change_not_recorded :
  let u := Examples.known_updater in
  let u' := cloudMsgCallback Examples.axis_ray u Examples.overlap_msg in
  use_change_detection (frontier_tree_ u) = true ∧
  changed_keys (frontier_tree_ u) = ∅ ∧
  search (frontier_tree_ u) (Examples.K 0 0 0) = Some (-40) ∧
  search (frontier_tree_ u') (Examples.K 0 0 0) = Some (-80) ∧
  Examples.K 0 0 0 ∉ changed_cell_ u'.
Proof.
  intros u u'. split; [reflexivity|]. split; [reflexivity|].
  split; [reflexivity|]. split; [by vm_compute|].
  apply (bool_decide_unpack _). by vm_compute.
Qed.

Section ChangeSetClaims.

Variable computeRayKeys : OcTree → point3d → point3d → option (list OcTreeKey).

Lemma process_cloud_armed_cleared (u : Updater) (origin : point3d)
    (ps : list CloudPoint) :
  use_change_detection
    (frontier_tree_ (process_cloud computeRayKeys u origin ps)) = true ∧
  changed_keys (frontier_tree_ (process_cloud computeRayKeys u origin ps)) = ∅.
Proof. by rewrite process_cloud_frontier_tree. Qed.

(** With no entry pending before the commit, a key recorded by the commit
    is a key of one of the three committed sets. *)
Lemma commit_tree_changed_written (lg : Z) (t : OcTree) (c : Cells)
    (k : OcTreeKey) :
  changed_keys t = ∅ → k ∈ dom (changed_keys (commit_tree lg t c)) →
  k ∈ free_cells c ∪ occupied_cells c ∪ model_cells c.
Proof.
  intros He Hk.
  destruct (decide (k ∈ free_cells c ∪ occupied_cells c ∪ model_cells c))
    as [|Hn]; [done|].
  apply elem_of_dom in Hk.
  rewrite (commit_tree_entry_other lg t c k Hn), He, lookup_empty in Hk.
  by destruct Hk.
Qed.

Lemma process_cloud_reclassified (u : Updater) (origin : point3d)
    (ps : list CloudPoint) (k : OcTreeKey) :
  use_change_detection (frontier_tree_ u) = true →
  changed_keys (frontier_tree_ u) = ∅ →
  k ∈ changed_cell_ (process_cloud computeRayKeys u origin ps) ↔
  cell_reclassified (frontier_tree_ u)
    (frontier_tree_ (process_cloud computeRayKeys u origin ps)) k.
Proof.
  intros Ha He.
  rewrite process_cloud_changed, process_cloud_frontier_tree.
  by apply commit_tree_recorded.
Qed.

(** C5 (as amended).  In a frame that starts with the change detection of
    [frontier_tree_] armed and no recorded key pending, the change set
    drained by [trackChanges] holds exactly the keys whose cell the commit
    of that frame created or moved between occupied and not occupied; a
    key whose stored value the commit changed in another way is not in
    it.  The frame leaves the detection armed and the recorded keys
    cleared, so no key leaks: the change set of the frame that follows
    holds exactly the keys that frame reclassified. *)
Theorem change_set_holds_reclassified_cells (u : Updater) (origin : point3d)
    (ps : list CloudPoint) (origin2 : point3d) (ps2 : list CloudPoint) :
  use_change_detection (frontier_tree_ u) = true →
  changed_keys (frontier_tree_ u) = ∅ →
  let u' := process_cloud computeRayKeys u origin ps in
  let u'' := process_cloud computeRayKeys u' origin2 ps2 in
  (∀ k, k ∈ changed_cell_ u' ↔
        cell_reclassified (frontier_tree_ u) (frontier_tree_ u') k) ∧
  use_change_detection (frontier_tree_ u') = true ∧
  changed_keys (frontier_tree_ u') = ∅ ∧
  (∀ k, k ∈ changed_cell_ u'' ↔
        cell_reclassified (frontier_tree_ u') (frontier_tree_ u'') k).
Proof.
  intros Ha He u' u''.
  destruct (process_cloud_armed_cleared u origin ps) as [Ha' He'].
  fold u' in Ha', He'.
  split; [intros k; by apply process_cloud_reclassified|].
  split; [exact Ha'|]. split; [exact He'|].
  intros k. by apply process_cloud_reclassified.
Qed.

End ChangeSetClaims.

Lemma change_set_holds_reclassified_cells_witness :
  let u := Examples.armed_updater in
  let origin := point3d_mk (1 # 20) (1 # 20) (1 # 20) in
  let u' := process_cloud Examples.axis_ray u origin Examples.overlap_cloud in
  use_change_detection (frontier_tree_ u) = true ∧
  changed_keys (frontier_tree_ u) = ∅ ∧
  Examples.K 1 0 0 ∈ changed_cell_ u'.
Proof.
  intros u origin u'. split; [reflexivity|]. split; [reflexivity|].
  destruct (change_set_holds_reclassified_cells Examples.axis_ray u origin
              Examples.overlap_cloud origin Examples.overlap_cloud
              eq_refl eq_refl)
    as [Hrec _].
  apply Hrec. by vm_compute.
Defined.

(** * Further properties of the updater *)

(** ** The commit, cell by cell *)

Lemma commit_tree_nodes (lg : Z) (t : OcTree) (c : Cells) (k : OcTreeKey) :
  nodes (commit_tree lg t c) !! k = cell_after (params t) lg c k (nodes t !! k).
Proof.
  unfold commit_tree, cell_after.
  set (t1 := set_fold (write (bool_increment false)) t (free_cells c)).
  set (t2 := set_fold (write (bool_increment true)) t1 (occupied_cells c)).
  pose proof (fold_write_spec (bool_increment false) t (free_cells c)) as H1.
  pose proof (fold_write_spec (bool_increment true) t1 (occupied_cells c)) as H2.
  pose proof (fold_write_spec (λ _, lg) t2 (model_cells c)) as H3.
  fold t1 in H1. fold t2 in H2.
  rewrite (ws_nodes _ _ _ _ H3), (ws_nodes _ _ _ _ H2), (ws_nodes _ _ _ _ H1).
  rewrite (ws_params _ _ _ _ H2), (ws_params _ _ _ _ H1).
  reflexivity.
Qed.

Lemma cell_after_is_Some (P : OcTreeParams) (lg : Z) (c : Cells)
    (k : OcTreeKey) (v0 : option Z) :
  is_Some v0 → is_Some (cell_after P lg c k v0).
Proof.
  intros H. unfold cell_after.
  repeat (destruct (decide _)); eauto.
Qed.

(** X1.  The commit acts cell by cell: the content of a cell afterwards is
    a function of its content before and of its membership in the free,
    occupied and model sets, whatever the order in which the loops visit
    the keys.  [frontier_tree_] receives the model increment computed from
    the thresholds of [tree_]. *)
Theorem commit_cell_by_cell (t ft : OcTree) (c : Cells) (k : OcTreeKey) :
  nodes (commit (t, ft) c).1 !! k
  = cell_after (params t) (model_increment t) c k (nodes t !! k) ∧
  nodes (commit (t, ft) c).2 !! k
  = cell_after (params ft) (model_increment t) c k (nodes ft !! k) ∧
  params (commit (t, ft) c).1 = params t ∧
  params (commit (t, ft) c).2 = params ft.
Proof.
  rewrite commit_split; simpl.
  rewrite !commit_tree_nodes, !commit_tree_params. done.
Qed.

Section CellClaims.

Variable computeRayKeys : OcTree → point3d → point3d → option (list OcTreeKey).

Lemma frame_cells_sets (t : OcTree) (origin : point3d) (ps : list CloudPoint) :
  let fc := frame_cells computeRayKeys t origin ps in
  let b := bucket t ps in
  occupied_cells fc = occupied_cells b ∖ model_cells b ∧
  model_cells fc = model_cells b ∧
  clip_cells fc = clip_cells b ∧
  free_cells fc ## occupied_cells fc.
Proof.
  intros fc b. subst fc b. unfold frame_cells.
  destruct (reconcile_sets
              (compute_free computeRayKeys t origin (bucket t ps)))
    as (Ho & Hf & Hm & Hc).
  rewrite Ho, Hm, Hc, Hf. simpl. repeat split; set_solver.
Qed.

(** X2.  A key observed occupied in the frame that is not a model key
    receives the hit increment once and nothing else, also when it lies on
    the ray of another point: its content after the frame is its content
    before (0 for a new cell) plus [prob_hit_log], clamped. *)
Theorem occupied_cell_one_hit (u : Updater) (origin : point3d)
    (ps : list CloudPoint) (k : OcTreeKey) :
  k ∈ occupied_cells (bucket (tree_ u) ps) →
  k ∉ model_cells (bucket (tree_ u) ps) →
  search (tree_ (process_cloud computeRayKeys u origin ps)) k
  = Some (clamp (params (tree_ u))
            (default 0 (search (tree_ u) k) + prob_hit_log (params (tree_ u)))).
Proof.
  intros Ho Hm. unfold search.
  rewrite process_cloud_tree, commit_tree_nodes.
  destruct (frame_cells_sets (tree_ u) origin ps) as (Eo & Em & _ & Hd).
  unfold cell_after. rewrite Em, Eo.
  assert (Hk : k ∈ occupied_cells (bucket (tree_ u) ps)
                   ∖ model_cells (bucket (tree_ u) ps)) by set_solver.
  rewrite Eo in Hd.
  rewrite (decide_False (P := k ∈ free_cells _)) by set_solver.
  rewrite (decide_True (P := k ∈ _ ∖ _)) by done.
  by rewrite decide_False by done.
Qed.

(** X3.  A key that lies on the key ray of an endpoint of the frame whose
    traversal succeeded, and that is neither an occupied key nor a model
    key of the frame, receives the miss increment once and nothing else:
    its content after the frame is its content before (0 for a new cell)
    plus [prob_miss_log], clamped. *)
Theorem free_cell_one_miss (u : Updater) (origin : point3d)
    (ps : list CloudPoint) (k : OcTreeKey) :
  (∃ e key_ray,
     (e ∈ occupied_cells (bucket (tree_ u) ps) ∨
      e ∈ model_cells (bucket (tree_ u) ps) ∨
      e ∈ clip_cells (bucket (tree_ u) ps)) ∧
     computeRayKeys (tree_ u) origin (keyToCoord (params (tree_ u)) e)
     = Some key_ray ∧
     k ∈ key_ray) →
  k ∉ occupied_cells (bucket (tree_ u) ps) →
  k ∉ model_cells (bucket (tree_ u) ps) →
  search (tree_ (process_cloud computeRayKeys u origin ps)) k
  = Some (clamp (params (tree_ u))
            (default 0 (search (tree_ u) k)
             + prob_miss_log (params (tree_ u)))).
Proof.
  intros (e & key_ray & He & Hray & Hk) Ho Hm. unfold search.
  rewrite process_cloud_tree, commit_tree_nodes.
  destruct (frame_cells_sets (tree_ u) origin ps) as (Eo & Em & _ & _).
  assert (Hf : k ∈ free_cells
                     (frame_cells computeRayKeys (tree_ u) origin ps)).
  { unfold frame_cells.
    destruct (reconcile_sets
                (compute_free computeRayKeys (tree_ u) origin
                   (bucket (tree_ u) ps))) as (_ & -> & _ & _).
    apply elem_of_difference. split; [|simpl; set_solver].
    simpl. rewrite !elem_of_trace_rays.
    destruct He as [He|[He|He]].
    - left; left; right. by exists e, key_ray.
    - left; right. by exists e, key_ray.
    - right. by exists e, key_ray. }
  unfold cell_after. rewrite Em, Eo.
  rewrite (decide_True (P := k ∈ free_cells _)) by done.
  rewrite (decide_False (P := k ∈ _ ∖ _)) by set_solver.
  by rewrite decide_False by done.
Qed.

(** X4.  A key that is on no traced ray and is neither an occupied nor a
    model key of the frame keeps its content in both trees; this includes
    the endpoint of a clipped point, which is ray-cast but not written. *)
Theorem other_cells_untouched (u : Updater) (origin : point3d)
    (ps : list CloudPoint) (k : OcTreeKey) :
  k ∉ free_cells (frame_cells computeRayKeys (tree_ u) origin ps) →
  k ∉ occupied_cells (bucket (tree_ u) ps) →
  k ∉ model_cells (bucket (tree_ u) ps) →
  search (tree_ (process_cloud computeRayKeys u origin ps)) k
  = search (tree_ u) k ∧
  search (frontier_tree_ (process_cloud computeRayKeys u origin ps)) k
  = search (frontier_tree_ u) k.
Proof.
  intros Hf Ho Hm. unfold search.
  rewrite process_cloud_tree, process_cloud_frontier_tree. simpl.
  destruct (frame_cells_sets (tree_ u) origin ps) as (Eo & Em & _ & _).
  split; apply commit_tree_other; rewrite ?Eo, ?Em; set_solver.
Qed.

End CellClaims.

Lemma occupied_cell_one_hit_witness :
  let u := Examples.fresh_updater in
  let origin := point3d_mk (1 # 20) (1 # 20) (1 # 20) in
  search (tree_ (process_cloud Examples.axis_ray u origin
                   Examples.overlap_cloud)) (Examples.K 2 0 0)
  = Some 85.
Proof.
  intros u origin.
  apply (occupied_cell_one_hit Examples.axis_ray u origin
           Examples.overlap_cloud (Examples.K 2 0 0)).
  - apply (bool_decide_unpack _). by vm_compute.
  - apply (bool_decide_unpack _). by vm_compute.
Defined.

Lemma free_cell_one_miss_witness :
  let u := Examples.fresh_updater in
  let origin := point3d_mk (1 # 20) (1 # 20) (1 # 20) in
  search (tree_ (process_cloud Examples.axis_ray u origin
                   Examples.overlap_cloud)) (Examples.K 0 0 0)
  = Some (-40).
Proof.
  intros u origin.
  apply (free_cell_one_miss Examples.axis_ray u origin
           Examples.overlap_cloud (Examples.K 0 0 0)).
  - exists (Examples.K 2 0 0), [Examples.K 0 0 0; Examples.K 1 0 0].
    split; [|split].
    + left. apply (bool_decide_unpack _). by vm_compute.
    + by vm_compute.
    + apply list_elem_of_here.
  - apply (bool_decide_unpack _). by vm_compute.
  - apply (bool_decide_unpack _). by vm_compute.
Defined.

Lemma other_cells_untouched_witness :
  let u := Examples.fresh_updater in
  let origin := point3d_mk (1 # 20) (1 # 20) (1 # 20) in
  let u' := process_cloud Examples.axis_ray u origin Examples.overlap_cloud in
  search (tree_ u') (Examples.K 7 7 7) = search (tree_ u) (Examples.K 7 7 7) ∧
  search (frontier_tree_ u') (Examples.K 7 7 7)
  = search (frontier_tree_ u) (Examples.K 7 7 7).
Proof.
  intros u origin.
  apply (other_cells_untouched Examples.axis_ray u origin
           Examples.overlap_cloud (Examples.K 7 7 7));
    apply (bool_decide_unpack _); by vm_compute.
Defined.

(** ** Frames without a valid point *)

Lemma bucket_all_nan (t : OcTree) (ps : list CloudPoint) :
  (∀ p, p ∈ ps → pt_nan p = true) → bucket t ps = Cells_mk ∅ ∅ ∅ ∅.
Proof.
  unfold bucket. generalize (Cells_mk ∅ ∅ ∅ ∅).
  induction ps as [|p ps IH]; intros c H; [done|].
  simpl. unfold bucket_point at 2.
  rewrite (H p) by apply list_elem_of_here.
  apply IH. intros q Hq. apply H. by apply list_elem_of_further.
Qed.

Lemma commit_no_cells (tt : OcTree * OcTree) :
  commit tt (Cells_mk ∅ ∅ ∅ ∅) = tt.
Proof. unfold commit; simpl. by rewrite !set_fold_empty. Qed.

Section EmptyFrame.

Variable computeRayKeys : OcTree → point3d → point3d → option (list OcTreeKey).

Lemma frame_cells_all_nan (t : OcTree) (origin : point3d)
    (ps : list CloudPoint) :
  (∀ p, p ∈ ps → pt_nan p = true) →
  frame_cells computeRayKeys t origin ps = Cells_mk ∅ ∅ ∅ ∅.
Proof.
  intros H. unfold frame_cells. rewrite (bucket_all_nan t ps H).
  unfold compute_free, trace_rays; simpl. rewrite !set_fold_empty.
  unfold reconcile, erase_all; simpl. by rewrite !set_fold_empty.
Qed.

(** X5.  A frame in which every visited sample has a NaN coordinate (in
    particular an empty cloud) writes to no cell: [tree_] is left as it
    was and [frontier_tree_] keeps its cells.  The rest of the frame still
    runs: the keys recorded on [frontier_tree_] before the frame are
    drained into the change set and its recording is armed and cleared. *)
Theorem frame_without_valid_points (u : Updater) (origin : point3d)
    (ps : list CloudPoint) :
  (∀ p, p ∈ ps → pt_nan p = true) →
  let u' := process_cloud computeRayKeys u origin ps in
  tree_ u' = tree_ u ∧
  nodes (frontier_tree_ u') = nodes (frontier_tree_ u) ∧
  changed_cell_ u' = dom (changed_keys (frontier_tree_ u)) ∧
  use_change_detection (frontier_tree_ u') = true ∧
  changed_keys (frontier_tree_ u') = ∅.
Proof.
  intros H u'. subst u'. unfold process_cloud.
  rewrite (frame_cells_all_nan _ _ _ H), commit_no_cells. simpl.
  rewrite fold_map_keys. done.
Qed.

End EmptyFrame.

Lemma frame_without_valid_points_witness :
  let u := Examples.face_updater in
  let ps := [Build_CloudPoint true (point3d_mk 0 0 0) OUTSIDE] in
  tree_ (process_cloud Examples.axis_ray u (point3d_mk 0 0 0) ps) = tree_ u.
Proof.
  intros u ps.
  apply (frame_without_valid_points Examples.axis_ray u (point3d_mk 0 0 0) ps).
  intros p Hp. apply list_elem_of_singleton in Hp. by subst p.
Defined.

(** ** What a sequence of frames keeps *)

Section Sequences.

Variable computeRayKeys : OcTree → point3d → point3d → option (list OcTreeKey).

Lemma process_cloud_is_Some (u : Updater) (origin : point3d)
    (ps : list CloudPoint) (k : OcTreeKey) :
  (is_Some (search (tree_ u) k) →
   is_Some (search (tree_ (process_cloud computeRayKeys u origin ps)) k)) ∧
  (is_Some (search (frontier_tree_ u) k) →
   is_Some (search (frontier_tree_
                      (process_cloud computeRayKeys u origin ps)) k)).
Proof.
  unfold search. rewrite process_cloud_tree, process_cloud_frontier_tree.
  simpl. rewrite !commit_tree_nodes. split; apply cell_after_is_Some.
Qed.

Lemma cloudMsgCallback_is_Some (u : Updater) (m : CloudMsg) (k : OcTreeKey) :
  (is_Some (search (tree_ u) k) →
   is_Some (search (tree_ (cloudMsgCallback computeRayKeys u m)) k)) ∧
  (is_Some (search (frontier_tree_ u) k) →
   is_Some (search (frontier_tree_ (cloudMsgCallback computeRayKeys u m)) k)).
Proof.
  callback_cases u m; try (split; intros H; exact H);
    match goal with
    | |- context [process_cloud _ ?w ?o ?ps] =>
        exact (process_cloud_is_Some w o ps k)
    end.
Qed.

(** X6.  No frame makes a known cell unknown: a key that has a node in
    [tree_] (in [frontier_tree_]) still has one after any sequence of
    frames. *)
Theorem known_cells_stay_known (u : Updater) (ms : list CloudMsg)
    (k : OcTreeKey) :
  (is_Some (search (tree_ u) k) →
   is_Some (search (tree_ (foldl (cloudMsgCallback computeRayKeys) u ms)) k)) ∧
  (is_Some (search (frontier_tree_ u) k) →
   is_Some (search (frontier_tree_
                      (foldl (cloudMsgCallback computeRayKeys) u ms)) k)).
Proof.
  revert u. induction ms as [|m ms IH]; intros u; [done|]. simpl.
  destruct (IH (cloudMsgCallback computeRayKeys u m)) as [IH1 IH2].
  destruct (cloudMsgCallback_is_Some u m k) as [H1 H2].
  split; auto.
Qed.

Lemma cloudMsgCallback_within (u : Updater) (m : CloudMsg) :
  params_ok (params (tree_ u)) →
  params (frontier_tree_ u) = params (tree_ u) →
  within_clamp (tree_ u) → within_clamp (frontier_tree_ u) →
  let u' := cloudMsgCallback computeRayKeys u m in
  params (tree_ u') = params (tree_ u) ∧
  params (frontier_tree_ u') = params (tree_ u) ∧
  within_clamp (tree_ u') ∧ within_clamp (frontier_tree_ u').
Proof.
  intros Hok Hp Hw Hwf. simpl.
  callback_cases u m; try done;
    match goal with
    | |- context [process_cloud _ ?w ?o ?ps] =>
        destruct (process_cloud_within computeRayKeys w o ps Hok Hp Hw Hwf)
          as [W1 W2];
        rewrite process_cloud_tree, process_cloud_frontier_tree in *;
        simpl; rewrite !commit_tree_params; done
    end.
Qed.

(** X7.  The clamping invariant is an invariant of the callback: from trees
    that share their parameters, with thresholds in order and every stored
    value within the clamping interval, any sequence of frames leads to
    trees with the same parameters and every stored value within the
    clamping interval. *)
Theorem frames_keep_values_clamped (u : Updater) (ms : list CloudMsg) :
  params_ok (params (tree_ u)) →
  params (frontier_tree_ u) = params (tree_ u) →
  within_clamp (tree_ u) → within_clamp (frontier_tree_ u) →
  let u' := foldl (cloudMsgCallback computeRayKeys) u ms in
  params (tree_ u') = params (tree_ u) ∧
  params (frontier_tree_ u') = params (tree_ u) ∧
  within_clamp (tree_ u') ∧ within_clamp (frontier_tree_ u').
Proof.
  revert u. induction ms as [|m ms IH]; intros u Hok Hp Hw Hwf; [done|].
  simpl.
  destruct (cloudMsgCallback_within u m Hok Hp Hw Hwf)
    as (P1 & P2 & W1 & W2).
  destruct (IH (cloudMsgCallback computeRayKeys u m)) as (Q1 & Q2 & V1 & V2);
    [by rewrite P1|by rewrite P1, P2|done|done|].
  rewrite Q1, Q2, P1. done.
Qed.

End Sequences.

Lemma known_cells_stay_known_witness :
  let u := Examples.face_updater in
  let ms := [Examples.overlap_msg; Examples.overlap_msg] in
  is_Some (search (tree_ u) (Examples.K 1 0 0)) ∧
  is_Some (search (tree_ (foldl (cloudMsgCallback Examples.axis_ray) u ms))
                  (Examples.K 1 0 0)).
Proof.
  intros u ms.
  assert (H : is_Some (search (tree_ u) (Examples.K 1 0 0)))
    by (by exists (-40)).
  split; [exact H|].
  exact (proj1 (known_cells_stay_known Examples.axis_ray u ms
                  (Examples.K 1 0 0)) H).
Defined.

Lemma frames_keep_values_clamped_witness :
  let u := Examples.fresh_updater in
  let ms := [Examples.overlap_msg; Examples.overlap_msg] in
  within_clamp (tree_ (foldl (cloudMsgCallback Examples.axis_ray) u ms)) ∧
  within_clamp
    (frontier_tree_ (foldl (cloudMsgCallback Examples.axis_ray) u ms)).
Proof.
  intros u ms.
  destruct (frames_keep_values_clamped Examples.axis_ray u ms)
    as (_ & _ & W1 & W2).
  - unfold params_ok; simpl. lia.
  - reflexivity.
  - intros k v H. simpl in H. by rewrite lookup_empty in H.
  - intros k v H. simpl in H. by rewrite lookup_empty in H.
  - by split.
Defined.

(** ** The head of the callback *)

Lemma Qle_bool_false (a b : Q) : Qle_bool a b = false → (b < a)%Q.
Proof.
  intros H. apply Qnot_le_lt. intros Hle. apply Qle_bool_iff in Hle.
  congruence.
Qed.

Lemma Qlt_bool_true_inv (a b : Q) : Qlt_bool a b = true → (a < b)%Q.
Proof.
  unfold Qlt_bool. intros H. apply Qle_bool_false.
  by destruct (Qle_bool b a).
Qed.

Lemma rate_limited_false (u : Updater) (m : CloudMsg) :
  (0 < max_update_rate_ u)%Q → rate_limited u m = false →
  (1 / max_update_rate_ u < now m - last_update_time_ u)%Q.
Proof.
  intros Hr H. unfold rate_limited in H.
  rewrite (Qlt_bool_true _ _ Hr) in H. simpl in H.
  by apply Qle_bool_false.
Qed.

Lemma process_cloud_head (computeRayKeys :
    OcTree → point3d → point3d → option (list OcTreeKey))
    (u : Updater) (origin : point3d) (ps : list CloudPoint) :
  let u' := process_cloud computeRayKeys u origin ps in
  max_update_rate_ u' = max_update_rate_ u ∧
  last_update_time_ u' = last_update_time_ u ∧
  map_frame_ u' = map_frame_ u.
Proof. done. Qed.

Section Head.

Variable computeRayKeys : OcTree → point3d → point3d → option (list OcTreeKey).

(** X8.  A frame that passes the rate limiter and is then abandoned,
    because the cloud is in another frame than the map and the transform
    lookup fails or because the transform cache cannot be updated, leaves
    both trees, the change set and the frontier set as they were, but has
    already taken the time stamp when a rate is configured: it uses up the
    interval of the limiter. *)
Theorem abandoned_frame_keeps_map (u : Updater) (m : CloudMsg) :
  rate_limited u m = false →
  (map_frame_ u ≠ EmptyString ∧ map_frame_ u ≠ frame_id m ∧
   lookupTransform m = None) ∨ transform_cache_ok m = false →
  let u' := cloudMsgCallback computeRayKeys u m in
  tree_ u' = tree_ u ∧ frontier_tree_ u' = frontier_tree_ u ∧
  changed_cell_ u' = changed_cell_ u ∧ frontier_cell_ u' = frontier_cell_ u ∧
  ((0 < max_update_rate_ u)%Q → last_update_time_ u' = now m).
Proof.
  intros Hrl Hfail. simpl. unfold cloudMsgCallback. rewrite Hrl.
  set (u1 := if Qlt_bool 0 (max_update_rate_ u)
             then set_last_update_time u (now m) else u).
  set (u2 := if decide (map_frame_ u1 = EmptyString)
             then set_map_frame u1 (frame_id m) else u1).
  assert (E1 : tree_ u1 = tree_ u ∧ frontier_tree_ u1 = frontier_tree_ u ∧
               changed_cell_ u1 = changed_cell_ u ∧
               frontier_cell_ u1 = frontier_cell_ u ∧
               map_frame_ u1 = map_frame_ u ∧
               ((0 < max_update_rate_ u)%Q → last_update_time_ u1 = now m)).
  { unfold u1. destruct (Qlt_bool 0 (max_update_rate_ u)) eqn:E; [done|].
    repeat split. intros Hr. by rewrite (Qlt_bool_true _ _ Hr) in E. }
  destruct E1 as (T1 & F1 & C1 & S1 & M1 & L1).
  assert (E2 : tree_ u2 = tree_ u ∧ frontier_tree_ u2 = frontier_tree_ u ∧
               changed_cell_ u2 = changed_cell_ u ∧
               frontier_cell_ u2 = frontier_cell_ u ∧
               ((0 < max_update_rate_ u)%Q → last_update_time_ u2 = now m)).
  { unfold u2. by destruct (decide _). }
  assert (Hdone : ∀ w, w = u2 → tree_ w = tree_ u ∧
            frontier_tree_ w = frontier_tree_ u ∧
            changed_cell_ w = changed_cell_ u ∧
            frontier_cell_ w = frontier_cell_ u ∧
            ((0 < max_update_rate_ u)%Q → last_update_time_ w = now m))
    by (by intros w ->).
  destruct Hfail as [(Hne & Hdiff & Hlook)|Hcache].
  - assert (Ho : sensor_origin u2 m = None).
    { unfold sensor_origin, u2. rewrite M1.
      rewrite (decide_False (P := map_frame_ u = EmptyString)) by done.
      rewrite M1. by rewrite decide_False. }
    rewrite Ho. by apply Hdone.
  - destruct (sensor_origin u2 m); [|by apply Hdone].
    rewrite Hcache. by apply Hdone.
Qed.

Lemma callback_unset_frame (u : Updater) (m : CloudMsg) :
  map_frame_ u = EmptyString → rate_limited u m = false →
  cloudMsgCallback computeRayKeys u m
  = let u1 := if Qlt_bool 0 (max_update_rate_ u)
              then set_last_update_time u (now m) else u in
    let u2 := set_map_frame u1 (frame_id m) in
    if transform_cache_ok m
    then process_cloud computeRayKeys u2 (point3d_mk 0 0 0) (samples m)
    else u2.
Proof.
  intros He Hrl. unfold cloudMsgCallback. rewrite Hrl. simpl.
  set (u1 := if Qlt_bool 0 (max_update_rate_ u)
             then set_last_update_time u (now m) else u).
  assert (M1 : map_frame_ u1 = EmptyString).
  { unfold u1. by destruct (Qlt_bool _ _). }
  rewrite (decide_True (P := map_frame_ u1 = EmptyString)) by done.
  unfold sensor_origin; simpl. by rewrite decide_True by done.
Qed.

(** X9.  The map frame is set once: a map frame that is not empty is never
    changed by the callback, and an empty one becomes the frame of the
    first cloud that passes the rate limiter, whether or not that cloud is
    then processed.  Such a cloud is taken to be in the map frame: its
    sensor origin is the origin and the tf buffer is not consulted. *)
Theorem map_frame_set_once (u : Updater) (m : CloudMsg) :
  (map_frame_ u ≠ EmptyString →
   map_frame_ (cloudMsgCallback computeRayKeys u m) = map_frame_ u) ∧
  (map_frame_ u = EmptyString → rate_limited u m = false →
   map_frame_ (cloudMsgCallback computeRayKeys u m) = frame_id m ∧
   ∀ tf, cloudMsgCallback computeRayKeys u m
         = cloudMsgCallback computeRayKeys u
             (Build_CloudMsg (now m) (frame_id m) tf
                (transform_cache_ok m) (samples m))).
Proof.
  split.
  - intros Hne. callback_cases u m; try done.
  - intros He Hrl. split.
    + rewrite (callback_unset_frame u m He Hrl). simpl.
      by destruct (transform_cache_ok m).
    + intros tf. rewrite (callback_unset_frame u m He Hrl).
      by rewrite (callback_unset_frame u
                    (Build_CloudMsg (now m) (frame_id m) tf
                       (transform_cache_ok m) (samples m)) He Hrl).
Qed.

(** X10.  The time stamp of the limiter never goes back, and with a rate
    configured two frames that pass the limiter one after the other,
    processed or abandoned, are more than [1 / max_update_rate_] apart. *)
Theorem limiter_spaces_frames (u : Updater) (m1 m2 : CloudMsg) :
  (last_update_time_ u
   <= last_update_time_ (cloudMsgCallback computeRayKeys u m1))%Q ∧
  ((0 < max_update_rate_ u)%Q →
   rate_limited u m1 = false →
   rate_limited (cloudMsgCallback computeRayKeys u m1) m2 = false →
   (1 / max_update_rate_ u < now m2 - now m1)%Q).
Proof.
  assert (Hhead : rate_limited u m1 = false →
    max_update_rate_ (cloudMsgCallback computeRayKeys u m1)
    = max_update_rate_ u ∧
    last_update_time_ (cloudMsgCallback computeRayKeys u m1)
    = if Qlt_bool 0 (max_update_rate_ u) then now m1
      else last_update_time_ u).
  { intros Hrl. unfold cloudMsgCallback. rewrite Hrl.
    destruct (Qlt_bool 0 (max_update_rate_ u));
      destruct (decide _); destruct (sensor_origin _ _);
      try destruct (transform_cache_ok m1); done. }
  split.
  - destruct (rate_limited u m1) eqn:Hrl.
    + unfold cloudMsgCallback. rewrite Hrl. apply Qle_refl.
    + destruct (Hhead eq_refl) as [_ ->].
      destruct (Qlt_bool 0 (max_update_rate_ u)) eqn:Hr; [|apply Qle_refl].
      apply Qlt_bool_true_inv in Hr.
      pose proof (rate_limited_false u m1 Hr Hrl) as Hgap.
      assert (Hpos : (0 < 1 / max_update_rate_ u)%Q).
      { unfold Qdiv. rewrite Qmult_1_l. by apply Qinv_lt_0_compat. }
      apply Qlt_le_weak. apply Qlt_minus_iff.
      eapply Qlt_trans; [exact Hpos|].
      unfold Qminus in Hgap. exact Hgap.
  - intros Hr Hrl1 Hrl2. destruct (Hhead Hrl1) as [Hrate Hlast].
    rewrite (Qlt_bool_true _ _ Hr) in Hlast.
    rewrite <- Hrate in Hr.
    pose proof (rate_limited_false _ m2 Hr Hrl2) as Hgap.
    setoid_rewrite Hrate in Hgap. setoid_rewrite Hlast in Hgap. exact Hgap.
Qed.

End Head.

Lemma abandoned_frame_keeps_map_witness :
  let u := Updater_mk 10 0 "map" Examples.face_tree Examples.face_tree
             ∅ ∅ (-10) 10 (-10) 10 (-10) 10 in
  let m := Build_CloudMsg 5 "camera" None true Examples.overlap_cloud in
  let u' := cloudMsgCallback Examples.axis_ray u m in
  tree_ u' = tree_ u ∧ frontier_tree_ u' = frontier_tree_ u ∧
  last_update_time_ u' = 5%Q.
Proof.
  intros u m.
  destruct (abandoned_frame_keeps_map Examples.axis_ray u m)
    as (T & F & _ & _ & L).
  - reflexivity.
  - left. by repeat split.
  - split; [exact T|]. split; [exact F|]. apply L. reflexivity.
Defined.

Lemma map_frame_set_once_witness :
  map_frame_ (cloudMsgCallback Examples.axis_ray Examples.fresh_updater
                Examples.overlap_msg) = "map".
Proof.
  destruct (map_frame_set_once Examples.axis_ray Examples.fresh_updater
              Examples.overlap_msg) as [_ H].
  destruct (H eq_refl eq_refl) as [Hm _]. exact Hm.
Defined.

Lemma limiter_spaces_frames_witness :
  let u := Updater_mk 10 0 "map" Examples.face_tree Examples.face_tree
             ∅ ∅ (-10) 10 (-10) 10 (-10) 10 in
  let m1 := Build_CloudMsg 5 "map" None true Examples.overlap_cloud in
  let m2 := Build_CloudMsg 6 "map" None true Examples.overlap_cloud in
  (1 / max_update_rate_ u < now m2 - now m1)%Q.
Proof.
  intros u m1 m2.
  destruct (limiter_spaces_frames Examples.axis_ray u m1 m2) as [_ H].
  apply H; [reflexivity|reflexivity|by vm_compute].
Defined.

(** ** [trackChanges] *)

(** X11.  [trackChanges] hands over the keys recorded on [frontier_tree_]
    and nothing of the previous change set, and leaves the recording armed
    and empty: a second call with no write in between yields the empty
    change set.  It writes to no cell of either tree and not to the
    frontier set. *)
Theorem trackChanges_drains (u : Updater) :
  changed_cell_ (trackChanges u) = dom (changed_keys (frontier_tree_ u)) ∧
  changed_cell_ (trackChanges (trackChanges u)) = ∅ ∧
  use_change_detection (frontier_tree_ (trackChanges u)) = true ∧
  changed_keys (frontier_tree_ (trackChanges u)) = ∅ ∧
  nodes (frontier_tree_ (trackChanges u)) = nodes (frontier_tree_ u) ∧
  tree_ (trackChanges u) = tree_ u ∧
  frontier_cell_ (trackChanges u) = frontier_cell_ u.
Proof.
  split; [apply trackChanges_changed|].
  split; [by rewrite trackChanges_changed; simpl; rewrite dom_empty_L|].
  done.
Qed.

(** ** [findFrontier] *)

Lemma Qlt_bool_false_iff (a b : Q) : Qlt_bool a b = false ↔ (b <= a)%Q.
Proof.
  split; [apply Qlt_bool_false|].
  intros H. unfold Qlt_bool. apply Qle_bool_iff in H. by rewrite H.
Qed.

Lemma outside_box_false_iff (u : Updater) (p : point3d) :
  outside_box u p = false ↔ inside_box u p.
Proof.
  split; [apply outside_box_false|].
  unfold outside_box, inside_box. intros (H1 & H2 & H3 & H4 & H5 & H6).
  rewrite !orb_false_iff, !Qlt_bool_false_iff. done.
Qed.

(** X12.  [findFrontier] returns exactly the keys of the change set whose
    voxel centre is inside the bounding volume, bounds included, and that
    pass the frontier test; with an empty change set it returns the empty
    set. *)
Theorem findFrontier_exact (u : Updater) (k : OcTreeKey) :
  (k ∈ findFrontier u ↔
   k ∈ changed_cell_ u ∧
   inside_box u (keyToCoord (params (frontier_tree_ u)) k) ∧
   is_frontier (frontier_tree_ u) k = true) ∧
  (changed_cell_ u = ∅ → findFrontier u = ∅).
Proof.
  split.
  - rewrite elem_of_findFrontier, is_new_frontier_eq, andb_true_iff,
      negb_true_iff, outside_box_false_iff. done.
  - intros He. apply set_eq. intros x. rewrite elem_of_findFrontier, He.
    set_solver.
Qed.

Lemma flag_step_unknown (t : OcTree) (fl : bool * bool) (q : point3d) :
  (flag_step t fl q).1 = true ↔ fl.1 = true ∨ search_coord t q = None.
Proof.
  unfold flag_step. destruct (search_coord t q) as [v|]; simpl.
  - destruct (isNodeOccupied t v); simpl; split; auto; by intros [?|?].
  - split; auto.
Qed.

Lemma flag_step_free (t : OcTree) (fl : bool * bool) (q : point3d) :
  (flag_step t fl q).2 = true ↔
  fl.2 = true ∨ ∃ v, search_coord t q = Some v ∧ isNodeOccupied t v = false.
Proof.
  unfold flag_step. destruct (search_coord t q) as [v|]; simpl.
  - destruct (isNodeOccupied t v) eqn:Ho; simpl; split; auto.
    + intros [?|(w & [= <-] & ?)]; [done|congruence].
    + intros _. right. by exists v.
  - split; auto. by intros [?|(w & ? & _)].
Qed.

(** The two flags after the loop, from the flags before it. *)
Lemma flags_fold (t : OcTree) (qs : list point3d) (fl : bool * bool) :
  ((foldl (flag_step t) fl qs).1 = true ↔
   fl.1 = true ∨ ∃ q, q ∈ qs ∧ search_coord t q = None) ∧
  ((foldl (flag_step t) fl qs).2 = true ↔
   fl.2 = true ∨ ∃ q v, q ∈ qs ∧ search_coord t q = Some v ∧
                        isNodeOccupied t v = false).
Proof.
  revert fl. induction qs as [|q qs IH]; intros fl; simpl.
  - split; (split; [by left|]).
    + intros [?|(q & Hq & _)]; [done|by apply elem_of_nil in Hq].
    + intros [?|(q & v & Hq & _)]; [done|by apply elem_of_nil in Hq].
  - destruct (IH (flag_step t fl q)) as [IH1 IH2].
    rewrite IH1, IH2, flag_step_unknown, flag_step_free. clear IH1 IH2.
    setoid_rewrite elem_of_cons. split; split.
    + intros [[?|?]|(x & ? & ?)]; [by left|right; exists q; auto
                                  |right; exists x; auto].
    + intros [?|(x & [->|?] & ?)]; [by left; left|by left; right
                                   |right; exists x; auto].
    + intros [[?|(v & ? & ?)]|(x & v & ? & ? & ?)];
        [by left|right; exists q, v; auto|right; exists x, v; auto].
    + intros [?|(x & v & [->|?] & ? & ?)];
        [by left; left|left; right; by exists v|right; exists x, v; auto].
Qed.


Lemma elem_of_cellNeighbor (t : OcTree) (k : OcTreeKey) (q : point3d) :
  q ∈ cellNeighbor t k ↔
  ∃ o, q = keyToCoord (params t) (neighbor_key k o) ∧ o ∈ neighbor_offsets.
Proof. unfold cellNeighbor. generalize neighbor_offsets. intros offs.
  apply list_elem_of_fmap. Qed.

(** X13.  In a tree of positive resolution with the 16 levels of octomap,
    the detour of the neighbour queries through coordinates is a lookup by
    key: a cell raises both flags exactly when one of the 8 enumerated
    neighbour keys (components taken modulo 2^16) has no node and one of
    them has a node that is not occupied. *)
Theorem flags_ok_by_keys (t : OcTree) (k : OcTreeKey) :
  (0 < resolution (params t))%Q → tree_max_val (params t) = 32768 →
  (flags_ok t k = true ↔
   (∃ o, o ∈ neighbor_offsets ∧ search t (neighbor_key k o) = None) ∧
   (∃ o v, o ∈ neighbor_offsets ∧ search t (neighbor_key k o) = Some v ∧
           isNodeOccupied t v = false)).
Proof.
  intros Hr Hm. unfold flags_ok, neighbor_flags.
  destruct (flags_fold t (cellNeighbor t k) (false, false)) as [H1 H2].
  unfold flag_step in H1, H2. cbn beta iota delta [fst snd] in H1, H2.
  rewrite andb_true_iff, H1, H2. clear H1 H2. split.
  - intros [[?|(q & Hq & Hs)] [?|(q' & v & Hq' & Hs' & Hv)]]; try done.
    apply elem_of_cellNeighbor in Hq, Hq'.
    destruct Hq as (o & -> & Ho). destruct Hq' as (o' & -> & Ho').
    rewrite search_coord_neighbor in Hs, Hs' by done.
    split; [by exists o|by exists o', v].
  - intros [(o & Ho & Hs) (o' & v & Ho' & Hs' & Hv)]. split; right.
    + exists (keyToCoord (params t) (neighbor_key k o)).
      split; [apply elem_of_cellNeighbor; by exists o|].
      by rewrite search_coord_neighbor.
    + exists (keyToCoord (params t) (neighbor_key k o')), v.
      split; [apply elem_of_cellNeighbor; by exists o'|].
      by rewrite search_coord_neighbor.
Qed.

Lemma flags_ok_by_keys_witness :
  flags_ok Examples.corner_tree (Examples.K 0 0 0) = true.
Proof.
  apply (flags_ok_by_keys Examples.corner_tree (Examples.K 0 0 0));
    [reflexivity|reflexivity|].
  split.
  - exists (-1, -1, -1). split; [|reflexivity].
    apply (bool_decide_unpack _). by vm_compute.
  - exists (1, 1, 1), (-40). split; [|by split].
    apply (bool_decide_unpack _). by vm_compute.
Defined.

(** ** [mergeFrontier] *)

Lemma is_deleted_false (u : Updater) (k : OcTreeKey) :
  is_deleted u k = false ↔
  search (frontier_tree_ u) k = None ∨ is_frontier (frontier_tree_ u) k = true.
Proof.
  rewrite is_deleted_eq. destruct (search (frontier_tree_ u) k) as [v|].
  - rewrite negb_false_iff. split; [by right|by intros [?|?]].
  - split; [by left|done].
Qed.

Lemma elem_of_mergeFrontier (u : Updater) (newFrontier : KeySet)
    (k : OcTreeKey) :
  k ∈ frontier_cell_ (mergeFrontier u newFrontier) ↔
  k ∈ newFrontier ∨
  (k ∈ frontier_cell_ u ∧
   (search (frontier_tree_ u) k = None ∨
    is_frontier (frontier_tree_ u) k = true)).
Proof.
  rewrite mergeFrontier_frontier_cell, elem_of_union, elem_of_difference,
    elem_of_deleteSet, <- is_deleted_false.
  destruct (is_deleted u k); naive_solver.
Qed.

(** X14.  After [mergeFrontier] the persistent frontier set holds exactly
    the candidates together with the former members that have no node or
    still pass the frontier test: no key comes from elsewhere, and a
    candidate is taken without being tested.  Neither tree and not the
    change set is written. *)
Theorem mergeFrontier_exact (u : Updater) (newFrontier : KeySet)
    (k : OcTreeKey) :
  (k ∈ frontier_cell_ (mergeFrontier u newFrontier) ↔
   k ∈ newFrontier ∨
   (k ∈ frontier_cell_ u ∧
    (search (frontier_tree_ u) k = None ∨
     is_frontier (frontier_tree_ u) k = true))) ∧
  tree_ (mergeFrontier u newFrontier) = tree_ u ∧
  frontier_tree_ (mergeFrontier u newFrontier) = frontier_tree_ u ∧
  changed_cell_ (mergeFrontier u newFrontier) = changed_cell_ u.
Proof. split; [apply elem_of_mergeFrontier|done]. Qed.

(** X15.  [mergeFrontier] is idempotent for every candidate set: merging
    the same candidates a second time, the map being the same, changes
    nothing. *)
Theorem mergeFrontier_twice (u : Updater) (newFrontier : KeySet) :
  mergeFrontier (mergeFrontier u newFrontier) newFrontier
  = mergeFrontier u newFrontier.
Proof.
  assert (H : frontier_cell_
                (mergeFrontier (mergeFrontier u newFrontier) newFrontier)
              = frontier_cell_ (mergeFrontier u newFrontier)).
  { apply set_eq. intros k.
    rewrite (elem_of_mergeFrontier (mergeFrontier u newFrontier)
               newFrontier k).
    change (frontier_tree_ (mergeFrontier u newFrontier))
      with (frontier_tree_ u).
    rewrite (elem_of_mergeFrontier u newFrontier k). tauto. }
  unfold mergeFrontier in *. simpl in *. by rewrite H.
Qed.

Section FrontierInvariant.

Variable computeRayKeys : OcTree → point3d → point3d → option (list OcTreeKey).

Lemma process_cloud_frontier_valid (u : Updater) (origin : point3d)
    (ps : list CloudPoint) :
  frontier_valid (process_cloud computeRayKeys u origin ps).
Proof.
  unfold process_cloud.
  set (u2 := trackChanges _). intros k Hk.
  change (frontier_tree_ (mergeFrontier u2 (findFrontier u2)))
    with (frontier_tree_ u2).
  apply elem_of_mergeFrontier in Hk. destruct Hk as [Hk|[_ Hk]]; [|exact Hk].
  apply elem_of_findFrontier in Hk. destruct Hk as [_ Hk].
  rewrite is_new_frontier_eq in Hk. apply andb_true_iff in Hk.
  right. apply Hk.
Qed.

(** X16.  After every processed frame the persistent frontier set holds no
    stale member: each member either has no node in [frontier_tree_] or
    passes the frontier test on it, so none is occupied.  A frame that is
    dropped or abandoned keeps this, hence it holds after any sequence of
    frames once it holds. *)
Theorem frontier_set_never_stale (u : Updater) (origin : point3d)
    (ps : list CloudPoint) (ms : list CloudMsg) :
  frontier_valid (process_cloud computeRayKeys u origin ps) ∧
  (∀ k v, k ∈ frontier_cell_ (process_cloud computeRayKeys u origin ps) →
          search (frontier_tree_ (process_cloud computeRayKeys u origin ps)) k
          = Some v →
          isNodeOccupied
            (frontier_tree_ (process_cloud computeRayKeys u origin ps)) v
          = false) ∧
  (frontier_valid u →
   frontier_valid (foldl (cloudMsgCallback computeRayKeys) u ms)).
Proof.
  split; [apply process_cloud_frontier_valid|]. split.
  - intros k v Hk Hs.
    destruct (process_cloud_frontier_valid u origin ps k Hk) as [Hn|Hf];
      [congruence|].
    unfold is_frontier in Hf. rewrite Hs in Hf.
    apply andb_true_iff in Hf. by apply negb_true_iff, Hf.
  - revert u. induction ms as [|m ms IH]; intros u Hv; [done|]. simpl.
    apply IH. clear IH.
    callback_cases u m; try exact Hv; apply process_cloud_frontier_valid.
Qed.

End FrontierInvariant.

Lemma frontier_set_never_stale_witness :
  let u := Examples.corner_updater in
  let ms := [Examples.overlap_msg; Examples.overlap_msg] in
  frontier_valid u ∧
  frontier_valid (foldl (cloudMsgCallback Examples.axis_ray) u ms).
Proof.
  intros u ms.
  assert (Hv : frontier_valid u).
  { intros k Hk. simpl in Hk. apply elem_of_singleton in Hk. subst k.
    right. by vm_compute. }
  split; [exact Hv|].
  destruct (frontier_set_never_stale Examples.axis_ray u
              (point3d_mk 0 0 0) [] ms) as (_ & _ & H).
  exact (H Hv).
Defined.

(** ** [publishFrontierNew] *)

Lemma push_marker_fold (t : OcTree) (res : Q) (l : list OcTreeKey)
    (n : Z) (acc : list Marker) :
  let r := foldl (push_marker t res) (n, acc) l in
  marker_id <$> r.2
  = (marker_id <$> acc) ++ ((λ i, n + Z.of_nat i) <$> seq 0 (length l)) ∧
  marker_position <$> r.2
  = (marker_position <$> acc) ++ (keyToCoord (params t) <$> l) ∧
  marker_scale <$> r.2
  = (marker_scale <$> acc) ++ ((λ _, (res, res, res)) <$> l) ∧
  marker_ns <$> r.2
  = (marker_ns <$> acc) ++ ((λ _, "frontier_cells") <$> l).
Proof.
  revert n acc. induction l as [|k l IH]; intros n acc; simpl.
  - by rewrite !app_nil_r.
  - destruct (IH (n + 1) (acc ++ [ {|
        marker_frame := "world"; marker_ns := "frontier_cells";
        marker_id := n; marker_position := keyToCoord (params t) k;
        marker_scale := (res, res, res);
        marker_color := (0, 1, 1, 1)%Q |} ])) as (Hi & Hp & Hs & Hn).
    unfold push_marker at 2 4 6 8. simpl.
    rewrite Hi, Hp, Hs, Hn. rewrite !fmap_app, <- !app_assoc. simpl.
    repeat split. do 2 f_equal.
    + f_equal. lia.
    + rewrite <- fmap_S_seq, <- list_fmap_compose.
      apply list_fmap_ext. intros i x _. simpl. lia.
Qed.

(** X17.  [publishFrontierNew] publishes nothing when the persistent
    frontier set is empty (markers published before are not withdrawn);
    otherwise it publishes one marker per member, with the identifiers
    0, 1, ... in the order of the loop, each placed at the voxel centre of
    its key and scaled to the map resolution. *)
Theorem publishFrontierNew_markers (u : Updater) (map_resolution_ : Q) :
  (publishFrontierNew u map_resolution_ = None ↔ frontier_cell_ u = ∅) ∧
  (∀ ms, publishFrontierNew u map_resolution_ = Some ms →
     length ms = size (frontier_cell_ u) ∧
     marker_id <$> ms = Z.of_nat <$> seq 0 (length ms) ∧
     marker_position <$> ms
     = keyToCoord (params (frontier_tree_ u))
         <$> visit_order (frontier_cell_ u) ∧
     (∀ k, k ∈ frontier_cell_ u →
           ∃ mk, mk ∈ ms ∧
                 marker_position mk
                 = keyToCoord (params (frontier_tree_ u)) k) ∧
     (∀ mk, mk ∈ ms →
            marker_scale mk
            = (map_resolution_, map_resolution_, map_resolution_))).
Proof.
  unfold publishFrontierNew. split.
  - destruct (decide (size (frontier_cell_ u) = 0%nat)) as [H|H].
    + split; [|done]. intros _. by apply leibniz_equiv, size_empty_inv.
    + split; [done|]. intros He. rewrite He, size_empty in H. done.
  - intros ms. destruct (decide _) as [|_]; [done|]. intros [= <-].
    destruct (push_marker_fold (frontier_tree_ u) map_resolution_
                (visit_order (frontier_cell_ u)) 0 [])
      as (Hi & Hp & Hs & _).
    simpl in Hi, Hp, Hs.
    set (ms := (foldl _ _ _).2) in *.
    assert (Hlen : length ms = size (frontier_cell_ u)).
    { rewrite <- (length_fmap marker_position), Hp, length_fmap.
      unfold visit_order. by rewrite length_reverse. }
    split; [exact Hlen|]. split.
    { rewrite Hi, Hlen. unfold visit_order. rewrite length_reverse.
      apply list_fmap_ext. intros i x _. lia. }
    split; [exact Hp|]. split.
    + intros k Hk. apply elem_of_visit_order in Hk.
      assert (Hin : keyToCoord (params (frontier_tree_ u)) k
                    ∈ marker_position <$> ms).
      { rewrite Hp. by apply list_elem_of_fmap_2. }
      apply list_elem_of_fmap in Hin. destruct Hin as (mk & E & Hmk).
      by exists mk.
    + intros mk Hmk.
      assert (Hin : marker_scale mk ∈ marker_scale <$> ms)
        by (by apply list_elem_of_fmap_2).
      rewrite Hs in Hin. apply list_elem_of_fmap in Hin.
      by destruct Hin as (? & -> & _).
Qed.

Lemma publishFrontierNew_markers_witness :
  ∃ ms, publishFrontierNew Examples.corner_updater (1 # 10) = Some ms ∧
        length ms = 1%nat ∧ marker_id <$> ms = [0].
Proof.
  destruct (publishFrontierNew Examples.corner_updater (1 # 10))
    as [ms|] eqn:E; [|by vm_compute in E].
  exists ms. split; [done|].
  destruct (publishFrontierNew_markers Examples.corner_updater (1 # 10))
    as [_ H].
  destruct (H ms E) as (Hl & Hi & _).
  assert (Hs : size (frontier_cell_ Examples.corner_updater) = 1%nat)
    by (by vm_compute).
  rewrite Hs in Hl. split; [exact Hl|]. by rewrite Hi, Hl.
Defined.

(** ** [initialize], [start], [stop] *)

(** X18.  [start] subscribes once: a second call changes nothing, whatever
    the map frame has become.  From the stopped state it creates the
    subscriber on the configured topic and leaves exactly one live
    registration of the callback: when both tf objects exist and the map
    frame is known it creates the message filter, targeted at the map
    frame, and registers the callback on the filter and not on the
    subscriber; otherwise it creates no filter and registers the callback
    on the subscriber.  So no cloud is handled twice.  [stop] removes
    subscriber and filter, and [initialize] always succeeds and provides
    both tf objects. *)
Theorem start_subscribes_once (l : Lifecycle) (map_frame map_frame' : string) :
  let l' := start (stop l) map_frame in
  start (start l map_frame) map_frame' = start l map_frame ∧
  callback_registrations l' = 1%nat ∧
  (is_Some (point_cloud_filter_ l') ↔
   tf_listener_ l = true ∧ tf_buffer_ l = true ∧ map_frame ≠ EmptyString) ∧
  (∃ s, point_cloud_subscriber_ l' = Some s ∧
        sub_topic s = point_cloud_topic_ l ∧
        (sub_callback s = true ↔ point_cloud_filter_ l' = None)) ∧
  (∀ f, point_cloud_filter_ l' = Some f →
        filter_callback f = true ∧ filter_target f = map_frame) ∧
  callback_registrations (stop l) = 0%nat ∧
  point_cloud_subscriber_ (stop (start l map_frame)) = None ∧
  point_cloud_filter_ (stop (start l map_frame)) = None ∧
  (initialize l).2 = true ∧
  (map_frame ≠ EmptyString →
   is_Some (point_cloud_filter_
              (start (stop (initialize l).1) map_frame))).
Proof.
  intros l'. subst l'. split.
  { assert (Hs : ∀ x f, is_Some (point_cloud_subscriber_ x) → start x f = x).
    { intros x f [s Hs]. unfold start. by rewrite Hs. }
    apply Hs. unfold start.
    destruct (point_cloud_subscriber_ l) eqn:E; [by rewrite E|].
    destruct (tf_listener_ l && tf_buffer_ l && negb _); simpl; eauto. }
  unfold start, stop, initialize, callback_registrations; simpl.
  destruct (tf_listener_ l), (tf_buffer_ l); simpl;
    case_bool_decide; simpl; repeat split; try done;
    try (by intros [? ?]); try (by intros (? & ? & ?));
    try (by intros; eexists);
    try (by intros f [= <-]);
    try (by simplify_eq);
    try (eexists; split_and!; [done|done|]; split; done);
    try (split; [by intros [? ?]|by intros (? & ? & ?)]);
    try (split; [done|by intros; eexists]).
Qed.

(** ** The bucketing of the cloud *)

(** X19.  The strided loops put the key of every visited sample without
    NaN into exactly the set of its label, INSIDE into the model set, CLIP
    into the clip set and any other label into the occupied set; a key is
    in a set only if such a sample maps to it, and a sample with a NaN
    coordinate contributes to none. *)
Theorem bucket_by_label (t : OcTree) (ps : list CloudPoint) (k : OcTreeKey) :
  (k ∈ model_cells (bucket t ps) ↔
   ∃ p, p ∈ ps ∧ pt_nan p = false ∧ pt_mask p = INSIDE ∧
        coordToKey (params t) (pt_map p) = k) ∧
  (k ∈ clip_cells (bucket t ps) ↔
   ∃ p, p ∈ ps ∧ pt_nan p = false ∧ pt_mask p = CLIP ∧
        coordToKey (params t) (pt_map p) = k) ∧
  (k ∈ occupied_cells (bucket t ps) ↔
   ∃ p, p ∈ ps ∧ pt_nan p = false ∧ pt_mask p = OUTSIDE ∧
        coordToKey (params t) (pt_map p) = k) ∧
  free_cells (bucket t ps) = ∅.
Proof.
  destruct (elem_of_bucket t ps k) as (Hm & Hc & Ho).
  split; [exact Hm|]. split; [exact Hc|]. split; [exact Ho|].
  apply bucket_free_empty.
Qed.

(** ** The frontier set across a frame *)

Section FrontierGrowth.

Variable computeRayKeys : OcTree → point3d → point3d → option (list OcTreeKey).

(** X20.  A frame lets a key into the persistent frontier set only through
    its change set: a member after the frame was a member before it or is
    a key of the drained change set whose voxel centre is inside the
    bounding volume.  When no recorded key was pending before the frame,
    such a key is one the frame's commit wrote. *)
Theorem frontier_grows_through_change_set (u : Updater) (origin : point3d)
    (ps : list CloudPoint) (k : OcTreeKey) :
  let u' := process_cloud computeRayKeys u origin ps in
  let c := frame_cells computeRayKeys (tree_ u) origin ps in
  k ∈ frontier_cell_ u' →
  k ∈ frontier_cell_ u ∨
  (k ∈ changed_cell_ u' ∧
   inside_box u (keyToCoord (params (frontier_tree_ u')) k) ∧
   (changed_keys (frontier_tree_ u) = ∅ →
    k ∈ free_cells c ∪ occupied_cells c ∪ model_cells c)).
Proof.
  intros u' c Hk.
  assert (Hc : changed_cell_ u'
               = dom (changed_keys (commit_tree (model_increment (tree_ u))
                                      (frontier_tree_ u) c)))
    by apply process_cloud_changed.
  unfold u', process_cloud in Hk. fold c in Hk.
  set (u2 := trackChanges _) in Hk.
  apply elem_of_mergeFrontier in Hk. destruct Hk as [Hk|[Hk _]]; [|by left].
  right. apply elem_of_findFrontier in Hk. destruct Hk as [Hk Hf].
  apply is_new_frontier_true in Hf. destruct Hf as [_ Hbox].
  assert (Hk' : k ∈ changed_cell_ u').
  { unfold u', process_cloud. fold c. exact Hk. }
  split; [exact Hk'|]. split.
  - exact Hbox.
  - intros He. rewrite Hc in Hk'.
    by apply commit_tree_changed_written in Hk'.
Qed.

(** X21.  Every model key of a frame ends at the lower clamping threshold
    in both trees, whether or not the key was also observed occupied or
    lies on a traced ray, under the clamping invariant of the trees. *)
Theorem model_cells_forced_to_min (u : Updater) (origin : point3d)
    (ps : list CloudPoint) (k : OcTreeKey) :
  params_ok (params (tree_ u)) →
  params (frontier_tree_ u) = params (tree_ u) →
  within_clamp (tree_ u) → within_clamp (frontier_tree_ u) →
  k ∈ model_cells (bucket (tree_ u) ps) →
  search (tree_ (process_cloud computeRayKeys u origin ps)) k
  = Some (clamping_thres_min (params (tree_ u))) ∧
  search (frontier_tree_ (process_cloud computeRayKeys u origin ps)) k
  = Some (clamping_thres_min (params (tree_ u))).
Proof.
  intros Hok Hp Hw Hwf Hm. unfold search.
  rewrite process_cloud_tree, process_cloud_frontier_tree. simpl.
  split; [by apply commit_tree_model|].
  unfold model_increment. rewrite <- Hp.
  apply commit_tree_model; [by rewrite Hp|done|exact Hm].
Qed.

End FrontierGrowth.

Lemma frontier_grows_through_change_set_witness :
  let u := Examples.grow_updater in
  let ps := Examples.grow_cloud in
  let origin := point3d_mk (1 # 20) (1 # 20) (1 # 20) in
  let u' := process_cloud Examples.axis_ray u origin ps in
  Examples.K 1 0 0 ∈ frontier_cell_ u' ∧
  Examples.K 1 0 0 ∈ changed_cell_ u'.
Proof.
  intros u ps origin u'.
  assert (Hk : Examples.K 1 0 0 ∈ frontier_cell_ u').
  { apply (bool_decide_unpack _). by vm_compute. }
  split; [exact Hk|].
  destruct (frontier_grows_through_change_set Examples.axis_ray u origin ps
              (Examples.K 1 0 0) Hk) as [Hold|(Hc & _)]; [|exact Hc].
  exfalso. simpl in Hold. set_solver.
Defined.

Lemma model_cells_forced_to_min_witness :
  let u := Examples.fresh_updater in
  let origin := point3d_mk (1 # 20) (1 # 20) (1 # 20) in
  search (tree_ (process_cloud Examples.axis_ray u origin
                   Examples.overlap_cloud)) (Examples.K 1 0 0)
  = Some (-200).
Proof.
  intros u origin.
  apply (model_cells_forced_to_min Examples.axis_ray u origin
           Examples.overlap_cloud (Examples.K 1 0 0)).
  - unfold params_ok; simpl. lia.
  - reflexivity.
  - intros k v H. simpl in H. by rewrite lookup_empty in H.
  - intros k v H. simpl in H. by rewrite lookup_empty in H.
  - apply (bool_decide_unpack _). by vm_compute.
Defined.
